(** * Name resolution cache of the alerts dashboard

    A shallow embedding of [backend/internal/services/name_service.go]
    (the revision with TTL-aware cache entries and the miss logger) and the
    properties of its resolver, cache store and miss log.

    Conventions of the embedding:
    - Go strings are byte strings ([string]); a [map[string]cacheEntry] is a
      [gmap string cacheEntry];
    - [time.Time] values are monotonic clock readings in nanoseconds ([Z]),
      [time.Duration] is a signed 64-bit count of nanoseconds and
      [time.Since] saturates like Go's;
    - the resolver, the clock and the [db.TiDB] handle are explicit: every
      method runs in a small state monad over the resolver and the trace of
      SQL queries it has issued, with the clock reading and the handle as
      arguments (one clock reading per method call);
    - a [*log.Logger] is represented by the lines it has printed
      (without the date prefix [log.LstdFlags] adds). *)

From Stdlib Require Import ZArith Lia String Ascii List.
From stdpp Require Import base gmap strings list fin_maps.

Local Open Scope string_scope.
Local Open Scope Z_scope.

(** ** Strings *)

Module GoStrings.

(** The decimal digits, as the comparison [c < '0' || c > '9']. A byte of
    a multi-byte UTF-8 sequence is at least 0x80, so it fails the test
    exactly as the rune it belongs to does. *)
Definition notDigit (c : ascii) : bool :=
  (Ascii.ltb c "0"%char || Ascii.ltb "9"%char c)%bool.

(** UTF-8 encoding of a code point below 0x10000 (all of Go's white space
    is in that range). *)
Definition utf8 (r : N) : list ascii :=
  if (r <? 128)%N then [ascii_of_N r]
  else if (r <? 2048)%N then
    [ascii_of_N (192 + r / 64); ascii_of_N (128 + r mod 64)]
  else
    [ascii_of_N (224 + r / 4096);
     ascii_of_N (128 + (r / 64) mod 64);
     ascii_of_N (128 + r mod 64)].

(** The code points for which [unicode.IsSpace] holds. *)
Definition spaceRunes : list N :=
  [9; 10; 11; 12; 13; 32; 133; 160; 5760;
   8192; 8193; 8194; 8195; 8196; 8197; 8198; 8199; 8200; 8201; 8202;
   8232; 8233; 8239; 8287; 12288]%N.

Definition spaceBytes : list (list ascii) := List.map utf8 spaceRunes.

Fixpoint hasPrefix (p l : list ascii) : bool :=
  match p, l with
  | [], _ => true
  | _ :: _, [] => false
  | a :: p', b :: l' => (Ascii.eqb a b && hasPrefix p' l')%bool
  end.

(** Drop encoded white space from the front for as long as there is some;
    [fuel] bounds the number of runes dropped. *)
Fixpoint dropSpaces (pats : list (list ascii)) (fuel : nat)
    (l : list ascii) : list ascii :=
  match fuel with
  | O => l
  | S fuel' =>
      match List.find (fun p => hasPrefix p l) pats with
      | Some p => dropSpaces pats fuel' (List.skipn (List.length p) l)
      | None => l
      end
  end.

Definition trimLeft (l : list ascii) : list ascii :=
  dropSpaces spaceBytes (List.length l) l.

Definition trimRight (l : list ascii) : list ascii :=
  List.rev (dropSpaces (List.map (@List.rev ascii) spaceBytes)
                       (List.length l) (List.rev l)).

(** [strings.TrimSpace]: leading and trailing white space removed. *)
Definition TrimSpace (s : string) : string :=
  string_of_list_ascii (trimRight (trimLeft (list_ascii_of_string s))).

(** [strings.Join]. *)
Definition Join (elems : list string) (sep : string) : string :=
  String.concat sep elems.

End GoStrings.

(** ** Time *)

Module GoTime.

Definition Time := Z.
Definition Duration := Z.

Definition minDuration : Duration := - 2 ^ 63.
Definition maxDuration : Duration := 2 ^ 63 - 1.

Definition Nanosecond : Duration := 1.
Definition Second : Duration := 1000000000 * Nanosecond.
Definition Hour : Duration := 3600 * Second.

(** [t.Sub(u)]: the difference, or the extreme duration when the
    difference does not fit. *)
Definition Sub (t u : Time) : Duration :=
  let d := t - u in
  if d <? minDuration then minDuration
  else if maxDuration <? d then maxDuration
  else d.

(** [time.Since(t)] at clock reading [now]. *)
Definition Since (now t : Time) : Duration := Sub now t.

End GoTime.

Import GoStrings GoTime.

(** ** Data model *)

Record NameInfo := mkNameInfo {
  Type_ : string;
  ID : string;
  Name : string;
  TenantID : string;
  TenantName : string
}.

(** [NameInfo{}] and [NameInfo{ID: id, Name: id}]. *)
Definition NameInfo_zero : NameInfo := mkNameInfo "" "" "" "" "".
Definition NameInfo_id (id : string) : NameInfo := mkNameInfo "" id id "" "".

Record ClusterInfo := mkClusterInfo {
  ci_ClusterID : string;
  ci_ClusterName : string;
  ci_TenantID : string;
  ci_TenantName : string;
  ci_DeployType : string;
  ci_Version : string;
  ci_ClusterLifecycle : string;
  ci_CreationDuration : string;
  ci_TenantPlan : string;
  ci_Provider : string;
  ci_Region : string;
  ci_ProjectID : string;
  ci_OrgID : string;
  ci_ClusterType : string;
  ci_CreatedAt : Time;
  ci_UpdatedAt : Time
}.

Record TenantInfo := mkTenantInfo {
  ti_TenantID : string;
  ti_TenantName : string;
  ti_Kind : string;
  ti_CreatedAt : Time;
  ti_UpdatedAt : Time
}.

Record cacheEntry := mkCacheEntry {
  info : NameInfo;
  notFound : bool;
  timestamp : Time
}.

Record NameResolver := mkNameResolver {
  cache : gmap string cacheEntry;
  missLogger : option (list string);
  cacheTTL : Duration;
  notFoundTTL : Duration
}.

(** Go's [error] values, by their message. *)
Definition error := string.

Definition errInvalidInput : error := "empty id".
Definition errNotFoundCached (id : string) : error :=
  "ID not found (cached): " ++ id.
Definition errBackendUnavailable : error := "TiDB not connected".
Definition errNotFound (id : string) : error := "ID not found: " ++ id.

#[global] Instance NameInfo_eq_dec : EqDecision NameInfo.
Proof. solve_decision. Defined.

#[global] Instance cacheEntry_eq_dec : EqDecision cacheEntry.
Proof. solve_decision. Defined.

(** ** The lookup backend

    [db.TiDB] is a [*sql.DB]; what the resolver sees of it is the outcome of
    each of its five statements for a given argument. *)

(** Outcome of [QueryRow(...).Scan(...)]. *)
Inductive RowResult (A : Type) : Type :=
  | ErrNoRows
  | ScanFailed (e : error)
  | Scanned (a : A).
Arguments ErrNoRows {A}.
Arguments ScanFailed {A} e.
Arguments Scanned {A} a.

(** Outcome of [rows.Scan(&name)] on one row of a result set. *)
Inductive NameScan : Type :=
  | NameOk (name : string)
  | NameFailed (e : error).

(** Outcome of [Query(...)]: an error, or the rows in result order. *)
Inductive RowsResult : Type :=
  | QueryFailed (e : error)
  | Rows (rs : list NameScan).

Record DB := mkDB {
  select_cluster : string -> RowResult ClusterInfo;
  select_tenant : string -> RowResult TenantInfo;
  select_cluster_name : string -> RowResult string;
  select_tenant_name : string -> RowResult string;
  select_premium_names : string -> RowsResult
}.

(** The statements the resolver sends, with their argument. *)
Inductive Query : Type :=
  | QCluster (id : string)
  | QTenant (id : string)
  | QTenantName (id : string)
  | QClusterName (id : string)
  | QPremiumNames (parentID : string).

#[global] Instance Query_eq_dec : EqDecision Query.
Proof. solve_decision. Defined.

(** ** State and effects *)

Record World := mkWorld {
  resolver : NameResolver;   (* the singleton behind [GetNameResolver] *)
  issued : list Query        (* statements sent to the backend so far *)
}.

Definition M (A : Type) : Type := World -> A * World.

Definition ret {A} (a : A) : M A := fun w => (a, w).

Definition bind {A B} (m : M A) (k : A -> M B) : M B :=
  fun w => let (a, w') := m w in k a w'.

Notation "'let*' x ':=' m 'in' k" := (bind m (fun x => k))
  (at level 10, x pattern, m at level 100, k at level 200).
Notation "'do' m 'then' k" := (bind m (fun _ => k))
  (at level 10, m at level 100, k at level 200).

Definition getResolver : M NameResolver := fun w => (resolver w, w).

Definition sendQuery (q : Query) : M unit :=
  fun w => (tt, mkWorld (resolver w) (issued w ++ [q])%list).

(** [nr.cache[id] = entry], under the write lock. *)
Definition storeEntry (id : string) (entry : cacheEntry) : M unit :=
  fun w =>
    let nr := resolver w in
    (tt, mkWorld (mkNameResolver (<[id := entry]> (cache nr)) (missLogger nr)
                                 (cacheTTL nr) (notFoundTTL nr))
                 (issued w)).

Definition setCache (c : gmap string cacheEntry) : M unit :=
  fun w =>
    let nr := resolver w in
    (tt, mkWorld (mkNameResolver c (missLogger nr) (cacheTTL nr)
                                 (notFoundTTL nr))
                 (issued w)).

(** ** The resolver *)

(** [GetNameResolver] on first use: empty cache, 24h and 1h TTLs, and the
    logger [initMissLogger] installs (a file or, failing that, stderr;
    either way not nil and with nothing printed yet). *)
Definition GetNameResolver : NameResolver :=
  mkNameResolver ∅ (Some []) (24 * Hour) (1 * Hour).

(** [logMiss]: one line [ID=<id> reason=<reason>] when there is a logger. *)
Definition logMiss (id reason : string) : M unit :=
  fun w =>
    let nr := resolver w in
    match missLogger nr with
    | Some lines =>
        (tt, mkWorld (mkNameResolver (cache nr)
                        (Some (lines ++ [("ID=" ++ id ++ " reason=" ++ reason)%string])%list)
                        (cacheTTL nr) (notFoundTTL nr))
                     (issued w))
    | None => (tt, w)
    end.

Fixpoint isNumeric_loop (s : string) : bool :=
  match s with
  | EmptyString => true
  | String c s' => if notDigit c then false else isNumeric_loop s'
  end.

Definition isNumeric (s : string) : bool :=
  if isNumeric_loop s then (0 <? Z.of_nat (String.length s)) else false.

Definition isEntryValid (nr : NameResolver) (now : Time) (entry : cacheEntry)
    : bool :=
  let ttl := cacheTTL nr in
  let ttl := if notFound entry then notFoundTTL nr else ttl in
  Since now (timestamp entry) <? ttl.

(** The five query helpers; each returns Go's pair (value, error). *)

Definition getCluster (db : DB) (clusterID : string)
    : M (option ClusterInfo * option error) :=
  do sendQuery (QCluster clusterID) then
  match select_cluster db clusterID with
  | ErrNoRows => ret (None, None)
  | ScanFailed e => ret (None, Some e)
  | Scanned i => ret (Some i, None)
  end.

Definition getTenant (db : DB) (tenantID : string)
    : M (option TenantInfo * option error) :=
  do sendQuery (QTenant tenantID) then
  match select_tenant db tenantID with
  | ErrNoRows => ret (None, None)
  | ScanFailed e => ret (None, Some e)
  | Scanned i => ret (Some i, None)
  end.

Definition getClusterName (db : DB) (clusterID : string)
    : M (string * option error) :=
  do sendQuery (QClusterName clusterID) then
  match select_cluster_name db clusterID with
  | ErrNoRows => ret ("", None)
  | ScanFailed e => ret ("", Some e)
  | Scanned name => ret (name, None)
  end.

Definition getTenantName (db : DB) (tenantID : string)
    : M (string * option error) :=
  do sendQuery (QTenantName tenantID) then
  match select_tenant_name db tenantID with
  | ErrNoRows => ret ("", None)
  | ScanFailed e => ret ("", Some e)
  | Scanned name => ret (name, None)
  end.

(** The [for rows.Next()] loop: names so far in [names]. *)
Fixpoint scanNames (rs : list NameScan) (names : list string)
    : list string * option error :=
  match rs with
  | [] => (names, None)
  | NameFailed e :: _ => ([], Some e)
  | NameOk name :: rs' => scanNames rs' (names ++ [name])%list
  end.

Definition getPremiumClusterNamesByParentID (db : DB) (parentID : string)
    : M (list string * option error) :=
  do sendQuery (QPremiumNames parentID) then
  match select_premium_names db parentID with
  | QueryFailed e => ret ([], Some e)
  | Rows rs => ret (scanNames rs [])
  end.

(** The condition [entry, ok := nr.cache[id]; ok && nr.isEntryValid(entry)]
    of the cache check, with the entry it binds when it holds. *)
Definition validEntry (nr : NameResolver) (now : Time) (id : string)
    : option cacheEntry :=
  match cache nr !! id with
  | Some entry => if isEntryValid nr now entry then Some entry else None
  | None => None
  end.

(** The loop over [premiumNames] that collects [meaningfulNames]. *)
Definition meaningfulNames (id : string) (premiumNames : list string)
    : list string :=
  fold_left
    (fun acc name =>
       let name := TrimSpace name in
       if (negb (String.eqb name "") && negb (String.eqb name id))%bool
       then (acc ++ [name])%list else acc)
    premiumNames [].

(** Body of the first step once [getCluster] has found a record. *)
Definition resolveCluster (db : DB) (now : Time) (id : string)
    (clusterInfo : ClusterInfo) : M (NameInfo * option error) :=
  let clusterName := ci_ClusterName clusterInfo in
  let* clusterName :=
    if (String.eqb (ci_DeployType clusterInfo) "nextgen-host"
        && (String.eqb clusterName "" || String.eqb clusterName id))%bool
    then
      let* (premiumNames, err) := getPremiumClusterNamesByParentID db id in
      match err with
      | None =>
          if (0 <? Z.of_nat (List.length premiumNames)) then
            let meaningful := meaningfulNames id premiumNames in
            if (0 <? Z.of_nat (List.length meaningful))
            then ret (Join meaningful ", ")
            else ret clusterName
          else ret clusterName
      | Some _ => ret clusterName
      end
    else ret clusterName in
  let result :=
    mkNameInfo "cluster" id clusterName
               (ci_TenantID clusterInfo) (ci_TenantName clusterInfo) in
  do storeEntry id (mkCacheEntry result false now) then
  ret (result, None).

(** [Resolve] returns from the first of its blocks that succeeds. The
    blocks after the availability check are written innermost first, each
    one standing for the rest of the function from its first line on. *)

(** Not found - cache the miss and log it. *)
Definition resolveNotFound (now : Time) (id : string)
    : M (NameInfo * option error) :=
  do storeEntry id (mkCacheEntry (NameInfo_id id) true now) then
  do logMiss id "not_found_in_database" then
  ret (NameInfo_id id, Some (errNotFound id)).

(** Fallback: try simple cluster name. *)
Definition resolveClusterName (db : DB) (now : Time) (id : string)
    : M (NameInfo * option error) :=
  let* (clusterName, err) := getClusterName db id in
  if (bool_decide (err = None) && negb (String.eqb clusterName ""))%bool then
    let result := mkNameInfo "cluster" id clusterName "" "" in
    do storeEntry id (mkCacheEntry result false now) then
    ret (result, None)
  else resolveNotFound now id.

(** Fallback: try simple tenant name. *)
Definition resolveTenantName (db : DB) (now : Time) (id : string)
    : M (NameInfo * option error) :=
  let* (tenantName, err) := getTenantName db id in
  if (bool_decide (err = None) && negb (String.eqb tenantName ""))%bool then
    let result := mkNameInfo "tenant" id tenantName "" "" in
    do storeEntry id (mkCacheEntry result false now) then
    ret (result, None)
  else resolveClusterName db now id.

(** Then try to find as tenant. *)
Definition resolveTenant (db : DB) (now : Time) (id : string)
    : M (NameInfo * option error) :=
  let* (tenantInfo, err) := getTenant db id in
  match err, tenantInfo with
  | None, Some tenantInfo =>
      let result := mkNameInfo "tenant" id (ti_TenantName tenantInfo) "" "" in
      do storeEntry id (mkCacheEntry result false now) then
      ret (result, None)
  | _, _ => resolveTenantName db now id
  end.

(** First try to find as cluster. *)
Definition resolveFromBackend (db : DB) (now : Time) (id : string)
    : M (NameInfo * option error) :=
  let* (clusterInfo, err) := getCluster db id in
  match err, clusterInfo with
  | None, Some clusterInfo => resolveCluster db now id clusterInfo
  | _, _ => resolveTenant db now id
  end.

(** Check if TiDB is available. *)
Definition resolveUncached (TiDB : option DB) (now : Time) (id : string)
    : M (NameInfo * option error) :=
  match TiDB with
  | None =>
      do logMiss id "TiDB_not_connected" then
      ret (NameInfo_id id, Some errBackendUnavailable)
  | Some db => resolveFromBackend db now id
  end.

Definition Resolve (TiDB : option DB) (now : Time) (id : string)
    : M (NameInfo * option error) :=
  if String.eqb id "" then ret (NameInfo_zero, Some errInvalidInput) else
  if negb (isNumeric id) then ret (NameInfo_id id, None) else
  (* Check cache (including not-found entries) *)
  let* nr := getResolver in
  match validEntry nr now id with
  | Some entry =>
      if notFound entry
      then ret (NameInfo_id id, Some (errNotFoundCached id))
      else ret (info entry, None)
  | None => resolveUncached TiDB now id
  end.

(** ** Housekeeping *)

(** The value of [GetCacheStats]; the two TTLs are kept as durations (the
    source renders them with [Duration.String]). *)
Record CacheStats := mkCacheStats {
  st_total : Z;
  st_found : Z;
  st_not_found : Z;
  st_expired : Z;
  st_cache_ttl : Duration;
  st_not_found_ttl : Duration
}.

Section Housekeeping.

(** The order in which a [for ... range nr.cache] visits the entries. Go
    leaves it unspecified: any enumeration of the map will do. *)
Variable range : gmap string cacheEntry -> list (string * cacheEntry).

(** One iteration of the loop of [GetCacheStats] on the counters
    (found, notFound, expired). *)
Definition countEntry (nr : NameResolver) (now : Time)
    (acc : Z * Z * Z) (kv : string * cacheEntry) : Z * Z * Z :=
  let '(found, notFound_, expired) := acc in
  let entry := kv.2 in
  if negb (isEntryValid nr now entry) then (found, notFound_, expired + 1)
  else if notFound entry then (found, notFound_ + 1, expired)
  else (found + 1, notFound_, expired).

Definition GetCacheStats (now : Time) : M CacheStats :=
  let* nr := getResolver in
  let total := Z.of_nat (size (cache nr)) in
  let '(found, notFound_, expired) :=
    fold_left (countEntry nr now) (range (cache nr)) (0, 0, 0) in
  ret (mkCacheStats total found notFound_ expired
                    (cacheTTL nr) (notFoundTTL nr)).

(** [nr.cache = make(map[string]cacheEntry)]. The line this and the next
    method print to the process log is not part of the model. *)
Definition ClearCache : M unit := setCache ∅.

(** One iteration of the loop of [CleanExpiredCache]: the entry at hand is
    deleted from the map being iterated when it is no longer valid. *)
Definition cleanEntry (nr : NameResolver) (now : Time)
    (acc : gmap string cacheEntry * Z) (kv : string * cacheEntry)
    : gmap string cacheEntry * Z :=
  let '(c, cleaned) := acc in
  let '(id, entry) := kv in
  if negb (isEntryValid nr now entry) then (delete id c, cleaned + 1)
  else (c, cleaned).

Definition CleanExpiredCache (now : Time) : M Z :=
  let* nr := getResolver in
  let '(c, cleaned) :=
    fold_left (cleanEntry nr now) (range (cache nr)) (cache nr, 0) in
  do setCache c then
  ret cleaned.

End Housekeeping.

(** * Notions used in the statements *)

(** ** What a call does to the world *)

(** [st] is the entry written for [id] (if any), [q] the queries sent and
    [lg] the lines printed to the miss log (when there is a logger). *)
Definition effect (id : string) (st : option cacheEntry) (q : list Query)
    (lg : list string) (w : World) : World :=
  let nr := resolver w in
  mkWorld
    (mkNameResolver
       (match st with Some e => <[id := e]> (cache nr) | None => cache nr end)
       ((fun lines => lines ++ lg)%list <$> missLogger nr)
       (cacheTTL nr) (notFoundTTL nr))
    (issued w ++ q)%list.

(** A world with nothing cached, nothing logged and nothing sent. *)
Definition blank : World := mkWorld (mkNameResolver ∅ (Some []) 0 0) [].

(** The outcome of [Resolve] from the blank world, and what it stored,
    sent and logged there. *)
Definition round (TiDB : option DB) (now : Time) (id : string)
    : (NameInfo * option error) * World :=
  Resolve TiDB now id blank.

Definition round_stored TiDB now id : option cacheEntry :=
  cache (resolver (round TiDB now id).2) !! id.
Definition round_queries TiDB now id : list Query :=
  issued (round TiDB now id).2.
Definition round_logged TiDB now id : list string :=
  default [] (missLogger (resolver (round TiDB now id).2)).

(** A computation that acts on the world only by such an effect, the same
    one whatever the world it starts from. *)
Definition frames {A : Type} (id : string) (m : M A) : Prop :=
  exists a st q lg, forall w, m w = (a, effect id st q lg w).

(** ** The steps of the fallback chain *)

Inductive Step : Type :=
  | ClusterByID
  | TenantByID
  | TenantNameOnly
  | ClusterNameOnly.

Definition chain : list Step :=
  [ClusterByID; TenantByID; TenantNameOnly; ClusterNameOnly].

Definition stepQuery (id : string) (s : Step) : Query :=
  match s with
  | ClusterByID => QCluster id
  | TenantByID => QTenant id
  | TenantNameOnly => QTenantName id
  | ClusterNameOnly => QClusterName id
  end.

Definition stepKind (s : Step) : string :=
  match s with
  | ClusterByID | ClusterNameOnly => "cluster"
  | TenantByID | TenantNameOnly => "tenant"
  end.

(** A step yields a result when the condition of its [if] in [Resolve]
    holds: no error and a record, or no error and a non-empty name. *)
Definition yields (db : DB) (id : string) (s : Step) : bool :=
  match s with
  | ClusterByID =>
      match select_cluster db id with Scanned _ => true | _ => false end
  | TenantByID =>
      match select_tenant db id with Scanned _ => true | _ => false end
  | TenantNameOnly =>
      match select_tenant_name db id with
      | Scanned name => negb (String.eqb name "")
      | _ => false
      end
  | ClusterNameOnly =>
      match select_cluster_name db id with
      | Scanned name => negb (String.eqb name "")
      | _ => false
      end
  end.

(** The query of a step fails with an error other than "no rows". *)
Definition stepErrors (db : DB) (id : string) (s : Step) : Prop :=
  match s with
  | ClusterByID => exists e, select_cluster db id = ScanFailed e
  | TenantByID => exists e, select_tenant db id = ScanFailed e
  | TenantNameOnly => exists e, select_tenant_name db id = ScanFailed e
  | ClusterNameOnly => exists e, select_cluster_name db id = ScanFailed e
  end.

(** The steps of [l] up to and including the first that yields. *)
Fixpoint tried (db : DB) (id : string) (l : list Step) : list Step :=
  match l with
  | [] => []
  | s :: l' => s :: (if yields db id s then [] else tried db id l')
  end.

Definition isStepQuery (q : Query) : bool :=
  match q with QPremiumNames _ => false | _ => true end.

(** ** Premium names *)

(** A name survives when, trimmed, it is neither empty nor the id. *)
Definition usable (id : string) (name : string) : bool :=
  (negb (String.eqb name "") && negb (String.eqb name id))%bool.

(** The names [getPremiumClusterNamesByParentID] hands back to [Resolve]
    (none when the query or a scan fails). *)
Definition fetchedNames (db : DB) (id : string) : list string :=
  (getPremiumClusterNamesByParentID db id blank).1.1.

(** A run of encoded characters taken from [pats]. *)
Inductive runOf (pats : list (list ascii)) : list ascii -> Prop :=
  | run_nil : runOf pats []
  | run_cons p l : In p pats -> runOf pats l -> runOf pats (p ++ l)%list.

(** White space only: a run of characters for which [unicode.IsSpace]
    holds, in UTF-8. *)
Definition whiteSpace (l : list ascii) : Prop := runOf spaceBytes l.

(** The first, respectively last, character is white space. *)
Definition startsWithSpace (l : list ascii) : Prop :=
  exists p rest, In p spaceBytes /\ l = (p ++ rest)%list.
Definition endsWithSpace (l : list ascii) : Prop :=
  exists p init, In p spaceBytes /\ l = (init ++ p)%list.

(** What it is to trim [s] to [t]: [s] is [t] between two runs of white
    space, and [t] neither starts nor ends with white space. *)
Definition trimmedTo (s t : string) : Prop :=
  exists pre post,
    whiteSpace pre /\ whiteSpace post /\
    list_ascii_of_string s =
      (pre ++ list_ascii_of_string t ++ post)%list /\
    ~ startsWithSpace (list_ascii_of_string t) /\
    ~ endsWithSpace (list_ascii_of_string t).

(** ** Repeated calls, validity and classification *)

(** [Resolve] called once at each of the clock readings [times], in order. *)
Fixpoint ResolveEach (TiDB : option DB) (id : string) (times : list Time)
    : M (list (NameInfo * option error)) :=
  match times with
  | [] => ret []
  | t :: ts =>
      let* r := Resolve TiDB t id in
      let* rs := ResolveEach TiDB id ts in
      ret (r :: rs)
  end.

(** A TTL that [time.Duration] can hold, other than the minimum duration. *)
Definition ttl_ok (ttl : Duration) : Prop :=
  minDuration < ttl <= maxDuration.

(** The resolver [nr] with the entry for [id] taken out of its cache. *)
Definition without (id : string) (nr : NameResolver) : NameResolver :=
  mkNameResolver (delete id (cache nr)) (missLogger nr)
                 (cacheTTL nr) (notFoundTTL nr).

Definition isFound (nr : NameResolver) (now : Time) (kv : string * cacheEntry)
    : bool :=
  (isEntryValid nr now kv.2 && negb (notFound kv.2))%bool.
Definition isNotFound (nr : NameResolver) (now : Time)
    (kv : string * cacheEntry) : bool :=
  (isEntryValid nr now kv.2 && notFound kv.2)%bool.
Definition isExpired (nr : NameResolver) (now : Time)
    (kv : string * cacheEntry) : bool :=
  negb (isEntryValid nr now kv.2).

(** ** Reachable worlds *)

Definition fresh_world : World := mkWorld GetNameResolver [].

(** The worlds the public operations can produce from the freshly built
    resolver, under any clock readings, backend states and map iteration
    orders. *)
Inductive reachable : World -> Prop :=
  | reach_init : reachable fresh_world
  | reach_Resolve TiDB now id w :
      reachable w -> reachable (Resolve TiDB now id w).2
  | reach_ClearCache w :
      reachable w -> reachable (ClearCache w).2
  | reach_CleanExpiredCache range now w :
      (forall m, range m ≡ₚ map_to_list m) ->
      reachable w -> reachable (CleanExpiredCache range now w).2
  | reach_GetCacheStats range now w :
      (forall m, range m ≡ₚ map_to_list m) ->
      reachable w -> reachable (GetCacheStats range now w).2.

(** Every entry echoes its key, and a negative entry holds nothing else. *)
Definition entry_ok (k : string) (e : cacheEntry) : Prop :=
  ID (info e) = k /\
  (notFound e = true -> info e = mkNameInfo "" k k "" "").

Definition cache_ok (w : World) : Prop :=
  forall k e, cache (resolver w) !! k = Some e -> entry_ok k e.

(** ** Sample data *)

Definition hit_entry : cacheEntry :=
  mkCacheEntry (mkNameInfo "tenant" "42" "Acme" "" "") false 0.
Definition hit_world : World :=
  mkWorld (mkNameResolver {["42" := hit_entry]} (Some []) (24 * Hour) (1 * Hour)) [].

Definition stale_entry : cacheEntry :=
  mkCacheEntry (NameInfo_id "7") true 0.

Definition stale_resolver : NameResolver :=
  mkNameResolver {["7" := stale_entry]} (Some []) (24 * Hour) (1 * Hour).

Definition clean_world : World :=
  mkWorld
    (mkNameResolver
       (<["42" := hit_entry]> {["7" := stale_entry]})
       (Some []) (24 * Hour) (1 * Hour))
    [].

Definition db_empty : DB :=
  mkDB (fun _ => ErrNoRows) (fun _ => ErrNoRows)
       (fun _ => ErrNoRows) (fun _ => ErrNoRows)
       (fun _ => Rows []).

Definition db_tenant_only : DB :=
  mkDB (fun _ => ScanFailed "connection reset")
       (fun _ => Scanned (mkTenantInfo "7" "Acme" "org" 0 0))
       (fun _ => ErrNoRows) (fun _ => ErrNoRows)
       (fun _ => Rows []).

Definition ci_nextgen : ClusterInfo :=
  mkClusterInfo "7" "" "t1" "Acme" "nextgen-host"
                "" "" "" "" "" "" "" "" "" 0 0.

Definition db_nextgen : DB :=
  mkDB (fun _ => Scanned ci_nextgen) (fun _ => ErrNoRows)
       (fun _ => ErrNoRows) (fun _ => ErrNoRows)
       (fun _ => Rows [NameOk "Beta"; NameOk "Alpha"]).

(** A tab and a no-break space (U+00A0, bytes C2 A0). *)
Definition tab : string := String "009" "".
Definition nbsp : string := String "194" (String "160" "").

Definition db_nextgen_spaced : DB :=
  mkDB (fun _ => Scanned ci_nextgen) (fun _ => ErrNoRows)
       (fun _ => ErrNoRows) (fun _ => ErrNoRows)
       (fun _ => Rows [NameOk (nbsp ++ "Beta ")%string; NameOk "   ";
                       NameOk " 7 "; NameOk ("Alpha" ++ tab)%string]).

(** * Notions used in the further properties *)

(** The line [logMiss] prints for [id] and [reason]. *)
Definition missLine (id reason : string) : string :=
  ("ID=" ++ id ++ " reason=" ++ reason)%string.

(** The lines a call that returned [err] has printed to the miss log. *)
Definition loggedFor (id : string) (err : option error) : list string :=
  if decide (err = Some (errNotFound id))
  then [missLine id "not_found_in_database"]
  else if decide (err = Some errBackendUnavailable)
  then [missLine id "TiDB_not_connected"]
  else [].

(** The argument a statement was sent with. *)
Definition queryArg (q : Query) : string :=
  match q with
  | QCluster id | QTenant id | QTenantName id | QClusterName id => id
  | QPremiumNames parentID => parentID
  end.

(** The four errors [Resolve] can return for [id]. *)
Definition resolveErrors (id : string) : list error :=
  [errInvalidInput; errNotFoundCached id; errBackendUnavailable;
   errNotFound id].

(** What holds of a cache key and its entry besides C10: only numeric
    identifiers are cached, and a positive entry says which kind of record
    it is. *)
Definition entry_classified (k : string) (e : cacheEntry) : Prop :=
  isNumeric k = true /\
  (notFound e = false ->
   Type_ (info e) = "cluster" \/ Type_ (info e) = "tenant").

(** The configuration [GetNameResolver] installs. *)
Definition configured (nr : NameResolver) : Prop :=
  cacheTTL nr = 24 * Hour /\ notFoundTTL nr = 1 * Hour /\
  is_Some (missLogger nr).

(** The decimal digits by their code. *)
Definition digitCode (c : ascii) : Prop :=
  (48 <= nat_of_ascii c <= 57)%nat.

(** * The first revision of the resolver

    The file also holds the resolver as it was before cache entries got a
    time stamp and a [notFound] flag: the cache maps an identifier to its
    [NameInfo], nothing expires, misses are not stored and there is no
    miss log. [NameInfo], [ClusterInfo], [TenantInfo], [isNumeric], the
    loop over the premium names and the SQL statements are the same in
    both revisions; the methods are written here with the world passed
    explicitly. *)

Module V1.

Record NameResolver := mkNameResolver {
  cache : gmap string NameInfo
}.

Record World := mkWorld {
  resolver : NameResolver;
  issued : list Query
}.

Definition GetNameResolver : NameResolver := mkNameResolver ∅.

(** A statement goes to the backend. *)
Definition sent (q : Query) (w : World) : World :=
  mkWorld (resolver w) (issued w ++ [q])%list.

(** [nr.cache[id] = result], under the write lock. *)
Definition stored (id : string) (result : NameInfo) (w : World) : World :=
  mkWorld (mkNameResolver (<[id := result]> (cache (resolver w)))) (issued w).

Definition getCluster (db : DB) (clusterID : string) (w : World)
    : (option ClusterInfo * option error) * World :=
  (match select_cluster db clusterID with
   | ErrNoRows => (None, None)
   | ScanFailed e => (None, Some e)
   | Scanned i => (Some i, None)
   end, sent (QCluster clusterID) w).

Definition getTenant (db : DB) (tenantID : string) (w : World)
    : (option TenantInfo * option error) * World :=
  (match select_tenant db tenantID with
   | ErrNoRows => (None, None)
   | ScanFailed e => (None, Some e)
   | Scanned i => (Some i, None)
   end, sent (QTenant tenantID) w).

Definition getClusterName (db : DB) (clusterID : string) (w : World)
    : (string * option error) * World :=
  (match select_cluster_name db clusterID with
   | ErrNoRows => ("", None)
   | ScanFailed e => ("", Some e)
   | Scanned name => (name, None)
   end, sent (QClusterName clusterID) w).

Definition getTenantName (db : DB) (tenantID : string) (w : World)
    : (string * option error) * World :=
  (match select_tenant_name db tenantID with
   | ErrNoRows => ("", None)
   | ScanFailed e => ("", Some e)
   | Scanned name => (name, None)
   end, sent (QTenantName tenantID) w).

Definition getPremiumClusterNamesByParentID (db : DB) (parentID : string)
    (w : World) : (list string * option error) * World :=
  (match select_premium_names db parentID with
   | QueryFailed e => ([], Some e)
   | Rows rs => scanNames rs []
   end, sent (QPremiumNames parentID) w).

(** The name of a cluster record: the premium names for a [nextgen-host]
    record without a meaningful name, the stored name otherwise. *)
Definition clusterNameOf (db : DB) (id : string) (clusterInfo : ClusterInfo)
    (w : World) : string * World :=
  let clusterName := ci_ClusterName clusterInfo in
  if (String.eqb (ci_DeployType clusterInfo) "nextgen-host"
      && (String.eqb clusterName "" || String.eqb clusterName id))%bool
  then
    let '((premiumNames, err), w) :=
      getPremiumClusterNamesByParentID db id w in
    match err with
    | None =>
        if (0 <? Z.of_nat (List.length premiumNames)) then
          let meaningful := meaningfulNames id premiumNames in
          if (0 <? Z.of_nat (List.length meaningful))
          then (Join meaningful ", ", w)
          else (clusterName, w)
        else (clusterName, w)
    | Some _ => (clusterName, w)
    end
  else (clusterName, w).

(** The blocks of [Resolve] after the availability check, innermost
    first, as in the later revision. *)

Definition resolveClusterName (db : DB) (id : string) (w : World)
    : (NameInfo * option error) * World :=
  let '((clusterName, err), w) := getClusterName db id w in
  if (bool_decide (err = None) && negb (String.eqb clusterName ""))%bool then
    let result := mkNameInfo "cluster" id clusterName "" "" in
    ((result, None), stored id result w)
  else
    (* Not found - return ID as name *)
    ((NameInfo_id id, Some (errNotFound id)), w).

Definition resolveTenantName (db : DB) (id : string) (w : World)
    : (NameInfo * option error) * World :=
  let '((tenantName, err), w) := getTenantName db id w in
  if (bool_decide (err = None) && negb (String.eqb tenantName ""))%bool then
    let result := mkNameInfo "tenant" id tenantName "" "" in
    ((result, None), stored id result w)
  else resolveClusterName db id w.

Definition resolveTenant (db : DB) (id : string) (w : World)
    : (NameInfo * option error) * World :=
  let '((tenantInfo, err), w) := getTenant db id w in
  match err, tenantInfo with
  | None, Some tenantInfo =>
      let result := mkNameInfo "tenant" id (ti_TenantName tenantInfo) "" "" in
      ((result, None), stored id result w)
  | _, _ => resolveTenantName db id w
  end.

Definition resolveFromBackend (db : DB) (id : string) (w : World)
    : (NameInfo * option error) * World :=
  let '((clusterInfo, err), w) := getCluster db id w in
  match err, clusterInfo with
  | None, Some clusterInfo =>
      let '(clusterName, w) := clusterNameOf db id clusterInfo w in
      let result :=
        mkNameInfo "cluster" id clusterName
                   (ci_TenantID clusterInfo) (ci_TenantName clusterInfo) in
      ((result, None), stored id result w)
  | _, _ => resolveTenant db id w
  end.

Definition Resolve (TiDB : option DB) (id : string) (w : World)
    : (NameInfo * option error) * World :=
  if String.eqb id "" then ((NameInfo_zero, Some errInvalidInput), w) else
  if negb (isNumeric id) then ((NameInfo_id id, None), w) else
  (* Check cache *)
  match cache (resolver w) !! id with
  | Some info => ((info, None), w)
  | None =>
      (* Check if TiDB is available *)
      match TiDB with
      | None => ((NameInfo_id id, Some errBackendUnavailable), w)
      | Some db => resolveFromBackend db id w
      end
  end.

End V1.

(** [V1.Resolve] called [n] times in a row, the backend being [TiDB k]
    when [k] calls remain after the current one. *)
Fixpoint V1_ResolveEach (TiDB : nat -> option DB) (id : string) (n : nat)
    (w : V1.World) : list (NameInfo * option error) * V1.World :=
  match n with
  | O => ([], w)
  | S n' =>
      let '(r, w) := V1.Resolve (TiDB n') id w in
      let '(rs, w) := V1_ResolveEach TiDB id n' w in
      (r :: rs, w)
  end.

(** ** More sample data *)

Definition ci_named : ClusterInfo :=
  mkClusterInfo "7" "prod-eu" "t1" "Acme" "nextgen-host"
                "" "" "" "" "" "" "" "" "" 0 0.

Definition db_named : DB :=
  mkDB (fun _ => Scanned ci_named) (fun _ => ErrNoRows)
       (fun _ => ErrNoRows) (fun _ => ErrNoRows)
       (fun _ => Rows [NameOk "Beta"]).

Definition db_premium_broken : DB :=
  mkDB (fun _ => Scanned ci_nextgen) (fun _ => ErrNoRows)
       (fun _ => ErrNoRows) (fun _ => ErrNoRows)
       (fun _ => Rows [NameOk "Beta"; NameFailed "converting NULL to string"]).

Definition db_cluster_name_only : DB :=
  mkDB (fun _ => ScanFailed "converting NULL to string")
       (fun _ => ErrNoRows) (fun _ => Scanned "prod-eu")
       (fun _ => ErrNoRows)
       (fun _ => Rows []).

Definition v1_fresh_world : V1.World := V1.mkWorld V1.GetNameResolver [].

(** * Properties *)

(** ** Identifiers *)

Example isNumeric_examples :
  isNumeric "" = false /\ isNumeric "10482" = true /\
  isNumeric "12a" = false /\ isNumeric "-3" = false /\
  isNumeric " 7" = false.
Proof. repeat split. Qed.

(** Plain, tab and no-break space (U+00A0, bytes C2 A0) around a name; a
    lone byte A0 is not white space. *)
Example TrimSpace_examples :
  TrimSpace "  Beta " = "Beta" /\
  TrimSpace (String "009" "Alpha") = "Alpha" /\
  TrimSpace (String "194" (String "160" "Beta")) = "Beta" /\
  TrimSpace (String "160" "Beta") = String "160" "Beta" /\
  TrimSpace "a b" = "a b" /\
  TrimSpace "   " = "".
Proof. repeat split; vm_compute; reflexivity. Qed.

Lemma isNumeric_loop_Forall (s : string) :
  isNumeric_loop s = true <->
  Forall (fun c => notDigit c = false) (list_ascii_of_string s).
Proof.
  induction s as [|c s IH]; simpl.
  - split; [constructor | reflexivity].
  - destruct (notDigit c) eqn:Hc.
    + split; [discriminate | intros H; inversion H; congruence].
    + rewrite IH. split; [intros H; constructor; assumption
                         | intros H; inversion H; assumption].
Qed.

Lemma isNumeric_spec (s : string) :
  isNumeric s = true <->
  s <> "" /\ Forall (fun c => notDigit c = false) (list_ascii_of_string s).
Proof.
  unfold isNumeric. rewrite <- isNumeric_loop_Forall.
  destruct (isNumeric_loop s); destruct s; simpl; split;
    try (intros [? ?]); try discriminate; try congruence; try tauto.
  all: try (intros _; split; [discriminate | reflexivity]).
  all: try (intros _; reflexivity).
Qed.

Lemma isNumeric_loop_Exists (s : string) :
  isNumeric_loop s = false <->
  Exists (fun c => notDigit c = true) (list_ascii_of_string s).
Proof.
  induction s as [|c s IH]; simpl.
  - split; [discriminate | intros H; inversion H].
  - destruct (notDigit c) eqn:Hc.
    + split; [intros _; constructor; assumption | reflexivity].
    + rewrite IH. split; [intros H; constructor 2; assumption|].
      intros H; inversion H; [congruence | assumption].
Qed.

Lemma isNumeric_false (s : string) :
  isNumeric s = false <->
  s = "" \/ Exists (fun c => notDigit c = true) (list_ascii_of_string s).
Proof.
  rewrite <- isNumeric_loop_Exists. unfold isNumeric.
  destruct (isNumeric_loop s); destruct s; simpl; split; auto;
    intros [?|?]; congruence.
Qed.

Lemma isNumeric_nonempty (s : string) :
  isNumeric s = true -> String.eqb s "" = false.
Proof.
  intros H. apply isNumeric_spec in H as [Hne _].
  apply String.eqb_neq. assumption.
Qed.

(** Unfolding the effects of one method call. *)
Ltac run_effects :=
  unfold resolveUncached, resolveFromBackend, resolveTenant,
    resolveTenantName,
    resolveClusterName, resolveNotFound, resolveCluster, getCluster, getTenant, getTenantName, getClusterName,
    getPremiumClusterNamesByParentID, storeEntry, setCache, logMiss,
    sendQuery, getResolver, bind, ret; simpl.

(** ** Input validation *)

(** C9, the claim as worded: an identifier that is empty or contains a
    character outside the decimal digits resolves without error. It does
    not: the empty identifier is such an identifier and is rejected. *)
Lemma empty_id_rejected_though_non_numeric :
  ~ (forall id : string,
       id = "" \/
       Exists (fun c => notDigit c = true) (list_ascii_of_string id) ->
       forall TiDB now w, (Resolve TiDB now id w).1.2 = None).
Proof.
  intros H.
  specialize (H "" (or_introl eq_refl) None 0 (mkWorld GetNameResolver [])).
  discriminate H.
Qed.

(** C9, amended: an identifier that is empty or contains a character
    outside the decimal digits is exactly one [isNumeric] rejects. On it
    [Resolve] leaves the resolver and the query trace as they were (no
    cache entry, no line in the miss log, no query); the empty identifier
    fails with [InvalidInput] and the zero record, every other such
    identifier returns [{id, name: id}] and no error. *)
Theorem Resolve_non_numeric (TiDB : option DB) (now : Time) (id : string)
    (w : World) :
  id = "" \/ Exists (fun c => notDigit c = true) (list_ascii_of_string id) ->
  isNumeric id = false /\
  (id = "" ->
   Resolve TiDB now id w = ((NameInfo_zero, Some errInvalidInput), w)) /\
  (id <> "" ->
   Resolve TiDB now id w = ((NameInfo_id id, None), w)).
Proof.
  intros H. apply isNumeric_false in H. split; [assumption|]. split.
  - intros ->. reflexivity.
  - intros Hne. unfold Resolve.
    apply String.eqb_neq in Hne. rewrite Hne, H. reflexivity.
Qed.

Lemma Resolve_non_numeric_witness :
  isNumeric "x7" = false /\
  ("x7" = "" ->
   Resolve None 0 "x7" (mkWorld GetNameResolver [])
   = ((NameInfo_zero, Some errInvalidInput), mkWorld GetNameResolver [])) /\
  ("x7" <> "" ->
   Resolve None 0 "x7" (mkWorld GetNameResolver [])
   = ((NameInfo_id "x7", None), mkWorld GetNameResolver [])).
Proof.
  apply (Resolve_non_numeric None 0 "x7" (mkWorld GetNameResolver [])).
  right. constructor. reflexivity.
Defined.

(** ** Cache hits *)

Lemma validEntry_Some (nr : NameResolver) (now : Time) (id : string)
    (entry : cacheEntry) :
  validEntry nr now id = Some entry <->
  cache nr !! id = Some entry /\ isEntryValid nr now entry = true.
Proof.
  unfold validEntry. destruct (cache nr !! id) as [e|].
  - destruct (isEntryValid nr now e) eqn:E; split.
    + intros [= ->]. auto.
    + intros [[= ->] _]. reflexivity.
    + discriminate.
    + intros [[= ->] ?]. congruence.
  - split; [discriminate | intros [? _]; discriminate].
Qed.

Lemma validEntry_None (nr : NameResolver) (now : Time) (id : string) :
  validEntry nr now id = None <->
  (forall entry, cache nr !! id = Some entry ->
                 isEntryValid nr now entry = false).
Proof.
  unfold validEntry. destruct (cache nr !! id) as [e|].
  - destruct (isEntryValid nr now e) eqn:E; split.
    + discriminate.
    + intros H. specialize (H e eq_refl). congruence.
    + intros _ e' [= <-]. assumption.
    + reflexivity.
  - split; [intros _ e; discriminate | reflexivity].
Qed.

(** C2: with a valid entry for a numeric [id] in the cache, [Resolve]
    returns without touching the world (no query is added to the trace,
    the cache and the miss log stay as they are, whatever the state of the
    backend): [NotFoundCached] with [{id, name: id}] for a negative entry,
    the stored record and no error for a positive one. *)
Theorem Resolve_valid_entry (TiDB : option DB) (now : Time) (id : string)
    (w : World) (entry : cacheEntry) :
  isNumeric id = true ->
  cache (resolver w) !! id = Some entry ->
  isEntryValid (resolver w) now entry = true ->
  Resolve TiDB now id w =
    (if notFound entry
     then (NameInfo_id id, Some (errNotFoundCached id))
     else (info entry, None),
     w).
Proof.
  intros Hnum Hc Hv. unfold Resolve.
  rewrite (isNumeric_nonempty _ Hnum), Hnum. simpl.
  unfold bind, getResolver.
  assert (validEntry (resolver w) now id = Some entry) as ->
    by (apply validEntry_Some; auto).
  destruct (notFound entry); reflexivity.
Qed.

Lemma Resolve_valid_entry_witness :
  Resolve None 5 "42" hit_world =
    (if notFound hit_entry
     then (NameInfo_id "42", Some (errNotFoundCached "42"))
     else (info hit_entry, None),
     hit_world).
Proof.
  apply (Resolve_valid_entry None 5 "42" hit_world hit_entry).
  - reflexivity.
  - vm_compute. reflexivity.
  - reflexivity.
Defined.

(** ** Cache misses: what a backend round does to the world *)

Lemma effect_none (id : string) (w : World) : effect id None [] [] w = w.
Proof.
  destruct w as [[c [l|] t1 t2] qs]; unfold effect; simpl;
    rewrite ?app_nil_r; reflexivity.
Qed.

Lemma effect_effect (id : string) st q lg st' q' lg' (w : World) :
  effect id st' q' lg' (effect id st q lg w) =
  effect id (match st' with Some _ => st' | None => st end)
         (q ++ q') (lg ++ lg') w.
Proof.
  destruct w as [[c l t1 t2] qs]; unfold effect; simpl.
  rewrite <- !app_assoc. f_equal. f_equal.
  - destruct st' as [e'|]; [|reflexivity].
    destruct st as [e|]; [|reflexivity]. apply insert_insert_eq.
  - destruct l as [l|]; simpl; [|reflexivity]. rewrite <- app_assoc.
    reflexivity.
Qed.

Lemma frames_ret {A : Type} (id : string) (a : A) : frames id (ret a).
Proof.
  exists a, None, [], []. intros w. rewrite effect_none. reflexivity.
Qed.

Lemma frames_bind {A B : Type} (id : string) (m : M A) (k : A -> M B) :
  frames id m -> (forall a, frames id (k a)) -> frames id (bind m k).
Proof.
  intros (a & st & q & lg & Hm) Hk.
  destruct (Hk a) as (b & st' & q' & lg' & Hka).
  exists b, (match st' with Some _ => st' | None => st end),
    (q ++ q')%list, (lg ++ lg')%list.
  intros w. unfold bind. rewrite Hm, Hka. rewrite effect_effect. reflexivity.
Qed.

Lemma frames_sendQuery (id : string) (q : Query) : frames id (sendQuery q).
Proof.
  exists tt, None, [q], []. intros [[c [l|] t1 t2] qs];
    unfold sendQuery, effect; simpl; rewrite ?app_nil_r; reflexivity.
Qed.

Lemma frames_storeEntry (id : string) (e : cacheEntry) :
  frames id (storeEntry id e).
Proof.
  exists tt, (Some e), [], []. intros [[c [l|] t1 t2] qs];
    unfold storeEntry, effect; simpl; rewrite ?app_nil_r; reflexivity.
Qed.

Lemma frames_logMiss (id reason : string) : frames id (logMiss id reason).
Proof.
  exists tt, None, [], [("ID=" ++ id ++ " reason=" ++ reason)%string].
  intros [[c [l|] t1 t2] qs];
    unfold logMiss, effect; simpl; rewrite ?app_nil_r; reflexivity.
Qed.

Create HintDb frames.
#[local] Hint Resolve frames_ret frames_sendQuery frames_storeEntry
  frames_logMiss : frames.

Ltac frames_step :=
  first [ apply frames_bind; [ | intros ? ]
        | solve [ auto with frames ] ].

Lemma frames_getPremium id db :
  frames id (getPremiumClusterNamesByParentID db id).
Proof.
  unfold getPremiumClusterNamesByParentID.
  apply frames_bind; [auto with frames|]. intros _.
  destruct (select_premium_names db id); auto with frames.
Qed.

Lemma frames_resolveCluster id db now ci :
  frames id (resolveCluster db now id ci).
Proof.
  unfold resolveCluster.
  apply frames_bind.
  - destruct (_ && _)%bool; [|auto with frames].
    apply frames_bind; [apply frames_getPremium|].
    intros [names [e|]]; [auto with frames|].
    repeat case_match; auto with frames.
  - intros name. apply frames_bind; auto with frames.
Qed.

Lemma frames_resolveNotFound id now : frames id (resolveNotFound now id).
Proof.
  unfold resolveNotFound. repeat frames_step.
Qed.

Lemma frames_resolveClusterName id db now :
  frames id (resolveClusterName db now id).
Proof.
  unfold resolveClusterName, getClusterName.
  apply frames_bind.
  - apply frames_bind; [auto with frames|]. intros _.
    destruct (select_cluster_name db id); auto with frames.
  - intros [name err]. destruct (_ && _)%bool.
    + repeat frames_step.
    + apply frames_resolveNotFound.
Qed.

Lemma frames_resolveTenantName id db now :
  frames id (resolveTenantName db now id).
Proof.
  unfold resolveTenantName, getTenantName.
  apply frames_bind.
  - apply frames_bind; [auto with frames|]. intros _.
    destruct (select_tenant_name db id); auto with frames.
  - intros [name err]. destruct (_ && _)%bool.
    + repeat frames_step.
    + apply frames_resolveClusterName.
Qed.

Lemma frames_resolveTenant id db now :
  frames id (resolveTenant db now id).
Proof.
  unfold resolveTenant, getTenant.
  apply frames_bind.
  - apply frames_bind; [auto with frames|]. intros _.
    destruct (select_tenant db id); auto with frames.
  - intros [[ti|] [err|]]; try apply frames_resolveTenantName.
    repeat frames_step.
Qed.

Lemma frames_resolveFromBackend id db now :
  frames id (resolveFromBackend db now id).
Proof.
  unfold resolveFromBackend, getCluster.
  apply frames_bind.
  - apply frames_bind; [auto with frames|]. intros _.
    destruct (select_cluster db id); auto with frames.
  - intros [[ci|] [err|]]; try apply frames_resolveTenant.
    apply frames_resolveCluster.
Qed.

Lemma frames_blank {A : Type} (id : string) (m : M A) (w : World) :
  frames id m ->
  m w = ((m blank).1,
         effect id (cache (resolver (m blank).2) !! id)
                (issued (m blank).2)
                (default [] (missLogger (resolver (m blank).2))) w).
Proof.
  intros (a & st & q & lg & H). rewrite !H. simpl.
  f_equal. f_equal.
  destruct st as [e|]; symmetry;
    [apply lookup_insert_eq | apply lookup_empty].
Qed.

Lemma frames_resolveUncached id TiDB now :
  frames id (resolveUncached TiDB now id).
Proof.
  destruct TiDB as [db|]; simpl.
  - apply frames_resolveFromBackend.
  - repeat frames_step.
Qed.

Lemma Resolve_miss_eq (TiDB : option DB) (now : Time) (id : string)
    (w : World) :
  isNumeric id = true ->
  validEntry (resolver w) now id = None ->
  Resolve TiDB now id w = resolveUncached TiDB now id w.
Proof.
  intros Hnum Hmiss. unfold Resolve.
  rewrite (isNumeric_nonempty _ Hnum), Hnum. simpl.
  unfold bind, getResolver. rewrite Hmiss. reflexivity.
Qed.

Lemma Resolve_uncached (TiDB : option DB) (now : Time) (id : string)
    (w : World) :
  isNumeric id = true ->
  validEntry (resolver w) now id = None ->
  Resolve TiDB now id w =
    ((round TiDB now id).1,
     effect id (round_stored TiDB now id) (round_queries TiDB now id)
            (round_logged TiDB now id) w).
Proof.
  intros Hnum Hmiss.
  unfold round_stored, round_queries, round_logged, round.
  rewrite !Resolve_miss_eq by (assumption || reflexivity).
  apply frames_blank, frames_resolveUncached.
Qed.

(** ** The fallback chain *)

Lemma Resolve_chain_queries (db : DB) (now : Time) (id : string) (w : World) :
  exists qs,
    issued (resolveFromBackend db now id w).2 = (issued w ++ qs)%list /\
    List.filter isStepQuery qs = List.map (stepQuery id) (tried db id chain).
Proof.
  destruct w as [[c lg t1 t2] qs0].
  unfold chain, tried, yields. run_effects.
  repeat (case_match; simpl in *; simplify_eq).
  all: eexists; split; [rewrite <- ?app_assoc; reflexivity | reflexivity].
Qed.

Lemma Resolve_chain_hit (db : DB) (now : Time) (id : string) (w : World)
    (s : Step) :
  List.find (yields db id) chain = Some s ->
  let out := resolveFromBackend db now id w in
  out.1.2 = None /\ Type_ out.1.1 = stepKind s /\ ID out.1.1 = id /\
  cache (resolver out.2) =
    <[id := mkCacheEntry out.1.1 false now]> (cache (resolver w)) /\
  missLogger (resolver out.2) = missLogger (resolver w).
Proof.
  destruct w as [[c lg t1 t2] qs0].
  unfold chain, List.find, yields. run_effects.
  repeat (case_match; simpl in *; simplify_eq); intros; simplify_eq;
    auto 6.
Qed.

Lemma Resolve_chain_miss (db : DB) (now : Time) (id : string) (w : World) :
  List.find (yields db id) chain = None ->
  let out := resolveFromBackend db now id w in
  out.1 = (NameInfo_id id, Some (errNotFound id)) /\
  cache (resolver out.2) =
    <[id := mkCacheEntry (NameInfo_id id) true now]> (cache (resolver w)) /\
  missLogger (resolver out.2) =
    (fun lines => lines ++ [("ID=" ++ id ++ " reason=not_found_in_database")%string])%list
      <$> missLogger (resolver w) /\
  issued out.2 =
    (issued w ++ [QCluster id; QTenant id; QTenantName id; QClusterName id])%list.
Proof.
  destruct w as [[c lg t1 t2] qs0].
  unfold chain, List.find, yields. run_effects.
  repeat (case_match; simpl in *; simplify_eq); intros; simplify_eq;
    rewrite <- ?app_assoc; auto 6.
Qed.

Lemma yields_stepErrors (db : DB) (id : string) (s : Step) :
  stepErrors db id s -> yields db id s = false.
Proof.
  destruct s; simpl; intros [e ->]; reflexivity.
Qed.

Lemma Resolve_cluster_plain (db : DB) (now : Time) (id : string) (w : World)
    (ci : ClusterInfo) :
  select_cluster db id = Scanned ci ->
  ci_DeployType ci <> "nextgen-host" ->
  (resolveFromBackend db now id w).1 =
    (mkNameInfo "cluster" id (ci_ClusterName ci) (ci_TenantID ci)
                (ci_TenantName ci), None).
Proof.
  intros Hc Hd. apply String.eqb_neq in Hd.
  destruct w as [[c lg t1 t2] qs0].
  run_effects. rewrite Hc, Hd. reflexivity.
Qed.

(** C1: for a numeric identifier without a valid cache entry and with the
    backend available, the step queries [Resolve] sends are, in this order,
    cluster-by-id, tenant-by-id, tenant-name-only, cluster-name-only, up to
    and including the first step that yields a result; the call then
    returns that step's record without error and caches it as a positive
    entry, or fails with [NotFound] when no step yields. A step whose query
    fails with an error yields nothing (so the next one is tried), and a
    cluster row found by the first step is a result whatever its name:
    nothing else is tried and, when its deploy type is not [nextgen-host],
    its stored name (empty or not) is returned as it is. *)
Theorem Resolve_fallback_chain (db : DB) (now : Time) (id : string)
    (w : World) :
  isNumeric id = true ->
  validEntry (resolver w) now id = None ->
  let out := Resolve (Some db) now id w in
  (exists qs,
      issued out.2 = (issued w ++ qs)%list /\
      List.filter isStepQuery qs =
        List.map (stepQuery id) (tried db id chain)) /\
  (forall s, List.find (yields db id) chain = Some s ->
      out.1.2 = None /\ Type_ out.1.1 = stepKind s /\ ID out.1.1 = id /\
      cache (resolver out.2) !! id = Some (mkCacheEntry out.1.1 false now)) /\
  (List.find (yields db id) chain = None ->
      out.1 = (NameInfo_id id, Some (errNotFound id))) /\
  (forall s, stepErrors db id s -> yields db id s = false) /\
  (forall ci, select_cluster db id = Scanned ci ->
      tried db id chain = [ClusterByID] /\
      List.find (yields db id) chain = Some ClusterByID /\
      (ci_DeployType ci <> "nextgen-host" ->
       out.1 = (mkNameInfo "cluster" id (ci_ClusterName ci)
                           (ci_TenantID ci) (ci_TenantName ci), None))).
Proof.
  intros Hnum Hmiss out. subst out.
  rewrite (Resolve_miss_eq _ _ _ _ Hnum Hmiss). simpl.
  split; [apply Resolve_chain_queries|].
  split.
  { intros s Hs.
    destruct (Resolve_chain_hit db now id w s Hs) as (He & Hk & Hi & Hc & _).
    repeat split; try assumption. rewrite Hc. apply lookup_insert_eq. }
  split; [intros Hn; apply (Resolve_chain_miss db now id w Hn)|].
  split; [apply yields_stepErrors|].
  intros ci Hci. unfold chain, tried, List.find, yields. rewrite Hci.
  repeat split. apply Resolve_cluster_plain; assumption.
Qed.

Lemma Resolve_fallback_chain_witness :
  let db := db_tenant_only in
  let out := Resolve (Some db) 5 "7" fresh_world in
  (exists qs,
      issued out.2 = (issued fresh_world ++ qs)%list /\
      List.filter isStepQuery qs =
        List.map (stepQuery "7") (tried db "7" chain)) /\
  (forall s, List.find (yields db "7") chain = Some s ->
      out.1.2 = None /\ Type_ out.1.1 = stepKind s /\ ID out.1.1 = "7" /\
      cache (resolver out.2) !! "7" = Some (mkCacheEntry out.1.1 false 5)) /\
  (List.find (yields db "7") chain = None ->
      out.1 = (NameInfo_id "7", Some (errNotFound "7"))) /\
  (forall s, stepErrors db "7" s -> yields db "7" s = false) /\
  (forall ci, select_cluster db "7" = Scanned ci ->
      tried db "7" chain = [ClusterByID] /\
      List.find (yields db "7") chain = Some ClusterByID /\
      (ci_DeployType ci <> "nextgen-host" ->
       out.1 = (mkNameInfo "cluster" "7" (ci_ClusterName ci)
                           (ci_TenantID ci) (ci_TenantName ci), None))).
Proof.
  exact (Resolve_fallback_chain db_tenant_only 5 "7" fresh_world
           eq_refl eq_refl).
Defined.

(** ** Definitive misses *)

(** C3, the claim as worded: the miss log receives the reason
    [not_found_in_backend]. The line the code prints carries another
    reason. *)
Lemma Resolve_miss_reason_not_in_backend :
  ~ (forall (db : DB) (now : Time) (id : string) (w : World)
            (lines : list string),
       isNumeric id = true ->
       validEntry (resolver w) now id = None ->
       (forall s, yields db id s = false) ->
       missLogger (resolver w) = Some lines ->
       missLogger (resolver (Resolve (Some db) now id w).2) =
         Some (lines ++ [("ID=" ++ id ++ " reason=not_found_in_backend")%string])%list).
Proof.
  intros H.
  specialize (H db_empty 5 "7" (mkWorld GetNameResolver []) []
                eq_refl eq_refl).
  assert (Hy : forall s, yields db_empty "7" s = false)
    by (intros []; reflexivity).
  specialize (H Hy eq_refl). vm_compute in H. discriminate H.
Qed.

Lemma find_yields_None (db : DB) (id : string) :
  (forall s, yields db id s = false) ->
  List.find (yields db id) chain = None.
Proof.
  intros H. unfold chain, List.find. rewrite !H. reflexivity.
Qed.

(** C3, amended: for a numeric identifier without a valid cache entry,
    with the backend available and none of the four steps yielding a
    result, [Resolve] sends the four step queries, stores the negative
    entry [{id, name: id}] stamped with the current time, prints
    [ID=<id> reason=not_found_in_database] to the miss log, and fails
    with [NotFound] while returning [{id, name: id}]. *)
Theorem Resolve_definitive_miss (db : DB) (now : Time) (id : string)
    (w : World) (lines : list string) :
  isNumeric id = true ->
  validEntry (resolver w) now id = None ->
  (forall s, yields db id s = false) ->
  missLogger (resolver w) = Some lines ->
  let out := Resolve (Some db) now id w in
  out.1 = (NameInfo_id id, Some (errNotFound id)) /\
  cache (resolver out.2) =
    <[id := mkCacheEntry (NameInfo_id id) true now]> (cache (resolver w)) /\
  missLogger (resolver out.2) =
    Some (lines ++ [("ID=" ++ id ++ " reason=not_found_in_database")%string])%list /\
  issued out.2 =
    (issued w ++ [QCluster id; QTenant id; QTenantName id; QClusterName id])%list.
Proof.
  intros Hnum Hmiss Hy Hlog out. subst out.
  rewrite (Resolve_miss_eq _ _ _ _ Hnum Hmiss). simpl.
  destruct (Resolve_chain_miss db now id w (find_yields_None _ _ Hy))
    as (Hr & Hc & Hl & Hq).
  rewrite Hlog in Hl. auto.
Qed.

Lemma Resolve_definitive_miss_witness :
  let out := Resolve (Some db_empty) 5 "7" (mkWorld GetNameResolver []) in
  out.1 = (NameInfo_id "7", Some (errNotFound "7")) /\
  cache (resolver out.2) =
    <["7" := mkCacheEntry (NameInfo_id "7") true 5]> (cache GetNameResolver) /\
  missLogger (resolver out.2) =
    Some ([] ++ ["ID=7 reason=not_found_in_database"])%list /\
  issued out.2 =
    ([] ++ [QCluster "7"; QTenant "7"; QTenantName "7"; QClusterName "7"])%list.
Proof.
  apply (Resolve_definitive_miss db_empty 5 "7" (mkWorld GetNameResolver []) []).
  - reflexivity.
  - reflexivity.
  - intros []; reflexivity.
  - reflexivity.
Defined.

(** ** Backend unavailable *)

Lemma Sub_mono (t t' u : Time) : t <= t' -> Sub t u <= Sub t' u.
Proof.
  unfold Sub, minDuration, maxDuration. intros H.
  repeat match goal with
         | |- context [?a <? ?b] => destruct (Z.ltb_spec a b)
         end; lia.
Qed.

Lemma isEntryValid_later (nr : NameResolver) (now t : Time)
    (entry : cacheEntry) :
  now <= t ->
  isEntryValid nr now entry = false -> isEntryValid nr t entry = false.
Proof.
  unfold isEntryValid, Since. intros Hle.
  pose proof (Sub_mono now t (timestamp entry) Hle).
  rewrite !Z.ltb_ge. lia.
Qed.

Lemma validEntry_later (nr : NameResolver) (now t : Time) (id : string) :
  now <= t -> validEntry nr now id = None -> validEntry nr t id = None.
Proof.
  rewrite !validEntry_None. intros Hle H entry He.
  apply (isEntryValid_later nr now t entry Hle). auto.
Qed.

Lemma Resolve_unavailable_once (now : Time) (id : string) (w : World) :
  isNumeric id = true ->
  validEntry (resolver w) now id = None ->
  Resolve None now id w =
    ((NameInfo_id id, Some errBackendUnavailable),
     effect id None [] [("ID=" ++ id ++ " reason=TiDB_not_connected")%string] w).
Proof.
  intros Hnum Hmiss. rewrite (Resolve_miss_eq _ _ _ _ Hnum Hmiss).
  destruct w as [[c [l|] t1 t2] qs]; run_effects; unfold effect; simpl;
    rewrite ?app_nil_r; reflexivity.
Qed.

(** C6, the claim as worded: the miss is recorded with the reason
    [backend_unavailable]. The line the code prints carries another
    reason. *)
Lemma Resolve_unavailable_reason_not_backend_unavailable :
  ~ (forall (now : Time) (id : string) (w : World) (lines : list string),
       isNumeric id = true ->
       validEntry (resolver w) now id = None ->
       missLogger (resolver w) = Some lines ->
       missLogger (resolver (Resolve None now id w).2) =
         Some (lines ++ [("ID=" ++ id ++ " reason=backend_unavailable")%string])%list).
Proof.
  intros H.
  specialize (H 5 "7" fresh_world [] eq_refl eq_refl eq_refl).
  vm_compute in H. discriminate H.
Qed.

(** C6, amended: for a numeric identifier without a valid cache entry and
    with the backend unavailable, [Resolve] prints
    [ID=<id> reason=TiDB_not_connected] to the miss log, fails with
    [BackendUnavailable], returns [{id, name: id}], sends no query and
    leaves the cache as it is; any number of later calls (the clock not
    running backwards, the backend still unavailable) do the same again:
    same result each time, one more line each time, cache unchanged. *)
Theorem Resolve_backend_unavailable (now : Time) (id : string) (w : World)
    (lines : list string) (times : list Time) :
  isNumeric id = true ->
  validEntry (resolver w) now id = None ->
  missLogger (resolver w) = Some lines ->
  Forall (fun t => now <= t) times ->
  let line := ("ID=" ++ id ++ " reason=TiDB_not_connected")%string in
  let nr := resolver w in
  Resolve None now id w =
    ((NameInfo_id id, Some errBackendUnavailable),
     mkWorld (mkNameResolver (cache nr) (Some (lines ++ [line])%list)
                             (cacheTTL nr) (notFoundTTL nr))
             (issued w)) /\
  ResolveEach None id times w =
    (repeat (NameInfo_id id, Some errBackendUnavailable) (List.length times),
     mkWorld (mkNameResolver (cache nr)
                (Some (lines ++ repeat line (List.length times))%list)
                (cacheTTL nr) (notFoundTTL nr))
             (issued w)).
Proof.
  intros Hnum Hmiss Hlog Htimes line nr. subst nr.
  assert (Hline : line = ("ID=" ++ id ++ " reason=TiDB_not_connected")%string)
    by reflexivity.
  clearbody line. split.
  - rewrite (Resolve_unavailable_once _ _ _ Hnum Hmiss), <- Hline.
    unfold effect. rewrite Hlog. simpl. rewrite app_nil_r. reflexivity.
  - revert w lines Hmiss Hlog.
    induction Htimes as [|t ts Ht _ IH]; intros w lines Hmiss Hlog.
    + destruct w as [[c l t1 t2] qs]. simpl in *. subst l.
      rewrite app_nil_r. reflexivity.
    + simpl. unfold bind at 1.
      rewrite (Resolve_unavailable_once t id w Hnum
                 (validEntry_later _ _ _ _ Ht Hmiss)), <- Hline.
      unfold bind at 1.
      rewrite (IH (effect id None [] [line] w) (lines ++ [line])%list).
      * unfold ret, effect. simpl. rewrite app_nil_r, <- app_assoc.
        reflexivity.
      * destruct w as [[c l t1 t2] qs]. exact Hmiss.
      * unfold effect. simpl. rewrite Hlog. reflexivity.
Qed.

Lemma Resolve_backend_unavailable_witness :
  let line := "ID=7 reason=TiDB_not_connected" in
  Resolve None 5 "7" fresh_world =
    ((NameInfo_id "7", Some errBackendUnavailable),
     mkWorld (mkNameResolver ∅ (Some ([] ++ [line])%list)
                             (24 * Hour) (1 * Hour)) []) /\
  ResolveEach None "7" [6; 9] fresh_world =
    (repeat (NameInfo_id "7", Some errBackendUnavailable) 2,
     mkWorld (mkNameResolver ∅ (Some ([] ++ repeat line 2)%list)
                             (24 * Hour) (1 * Hour)) []).
Proof.
  apply (Resolve_backend_unavailable 5 "7" fresh_world [] [6; 9]).
  - reflexivity.
  - reflexivity.
  - reflexivity.
  - repeat constructor; lia.
Defined.

(** ** Premium cluster names *)

Lemma meaningfulNames_from (id : string) (names acc : list string) :
  fold_left
    (fun acc name =>
       let name := TrimSpace name in
       if (negb (String.eqb name "") && negb (String.eqb name id))%bool
       then (acc ++ [name])%list else acc)
    names acc
  = (acc ++ List.filter (usable id) (List.map TrimSpace names))%list.
Proof.
  revert acc. induction names as [|n names IH]; intros acc; simpl.
  - rewrite app_nil_r. reflexivity.
  - rewrite IH. unfold usable at 2.
    destruct (negb _ && negb _)%bool; [|reflexivity].
    rewrite <- app_assoc. reflexivity.
Qed.

Lemma meaningfulNames_filter (id : string) (names : list string) :
  meaningfulNames id names =
  List.filter (usable id) (List.map TrimSpace names).
Proof. unfold meaningfulNames. apply meaningfulNames_from. Qed.

Lemma scanNames_ok (names acc : list string) :
  scanNames (List.map NameOk names) acc = ((acc ++ names)%list, None).
Proof.
  revert acc. induction names as [|n names IH]; intros acc; simpl.
  - rewrite app_nil_r. reflexivity.
  - rewrite IH, <- app_assoc. reflexivity.
Qed.

Lemma scanNames_failed (rs : list NameScan) (acc : list string) (e : error) :
  (scanNames rs acc).2 = Some e -> (scanNames rs acc).1 = [].
Proof.
  revert acc. induction rs as [|[n|e'] rs IH]; intros acc; simpl.
  - discriminate.
  - apply IH.
  - reflexivity.
Qed.

Lemma length_pos_cons {A : Type} (l : list A) :
  (0 <? Z.of_nat (List.length l)) = match l with [] => false | _ => true end.
Proof. destruct l; reflexivity. Qed.

Lemma resolveCluster_nextgen (db : DB) (now : Time) (id : string) (w : World)
    (ci : ClusterInfo) :
  ci_DeployType ci = "nextgen-host" ->
  ci_ClusterName ci = "" \/ ci_ClusterName ci = id ->
  let survivors :=
    List.filter (usable id) (List.map TrimSpace (fetchedNames db id)) in
  let result :=
    mkNameInfo "cluster" id
      (match survivors with
       | [] => ci_ClusterName ci
       | _ :: _ => Join survivors ", "
       end)
      (ci_TenantID ci) (ci_TenantName ci) in
  resolveCluster db now id ci w =
    ((result, None),
     effect id (Some (mkCacheEntry result false now)) [QPremiumNames id] [] w).
Proof.
  intros Hd Hn.
  assert (Hcond : (String.eqb (ci_DeployType ci) "nextgen-host"
             && (String.eqb (ci_ClusterName ci) ""
                 || String.eqb (ci_ClusterName ci) id))%bool = true).
  { rewrite Hd. simpl. destruct Hn as [-> | ->]; simpl.
    - reflexivity.
    - rewrite String.eqb_refl. apply orb_true_r. }
  destruct w as [[c lg t1 t2] qs].
  unfold fetchedNames. run_effects. rewrite Hcond. unfold effect. simpl.
  destruct (select_premium_names db id) as [e|rs]; simpl.
  - destruct lg; simpl; rewrite ?app_nil_r; reflexivity.
  - destruct (scanNames rs []) as [names [e|]] eqn:Hscan; simpl.
    + pose proof (scanNames_failed rs [] e) as Hf. rewrite Hscan in Hf.
      simpl in Hf. rewrite (Hf eq_refl). simpl.
      destruct lg; simpl; rewrite ?app_nil_r; reflexivity.
    + rewrite length_pos_cons. rewrite meaningfulNames_filter.
      destruct names as [|n names].
      * simpl. destruct lg; simpl; rewrite ?app_nil_r; reflexivity.
      * rewrite length_pos_cons.
        destruct (List.filter _ _); simpl;
          destruct lg; simpl; rewrite ?app_nil_r; reflexivity.
Qed.

(** [TrimSpace] does trim. *)

Lemma hasPrefix_true (p l : list ascii) :
  hasPrefix p l = true <-> exists rest, l = (p ++ rest)%list.
Proof.
  revert l. induction p as [|a p IH]; intros l; simpl.
  - split; [intros _; exists l; reflexivity | reflexivity].
  - destruct l as [|b l].
    + split; [discriminate | intros [rest H]; discriminate H].
    + rewrite andb_true_iff, Ascii.eqb_eq, IH. split.
      * intros [-> [rest ->]]. exists rest. reflexivity.
      * intros [rest [= -> ->]]. split; [reflexivity | eauto].
Qed.

Lemma find_all_false {A : Type} (f : A -> bool) (l : list A) :
  (forall x, In x l -> f x = false) -> List.find f l = None.
Proof.
  induction l as [|x l IH]; intros H; simpl; [reflexivity|].
  rewrite (H x (or_introl eq_refl)). apply IH. intros y Hy. apply H.
  right. assumption.
Qed.

Lemma dropSpaces_split (pats : list (list ascii)) (fuel : nat)
    (l : list ascii) :
  (forall p, In p pats -> p <> []) ->
  (List.length l <= fuel)%nat ->
  exists pre,
    runOf pats pre /\ l = (pre ++ dropSpaces pats fuel l)%list /\
    List.find (fun p => hasPrefix p (dropSpaces pats fuel l)) pats = None.
Proof.
  intros Hne. revert l. induction fuel as [|fuel IH]; intros l Hlen.
  - destruct l; [|simpl in Hlen; lia]. exists []. simpl.
    split; [constructor|]. split; [reflexivity|].
    apply find_all_false. intros p Hp. specialize (Hne p Hp).
    destruct p; [congruence | reflexivity].
  - simpl. destruct (List.find (fun p => hasPrefix p l) pats) as [p|] eqn:Hf.
    + apply List.find_some in Hf as [Hp Hpre].
      apply hasPrefix_true in Hpre as [rest ->].
      rewrite drop_app_length.
      assert (Hrest : (List.length rest <= fuel)%nat).
      { specialize (Hne p Hp). rewrite length_app in Hlen.
        destruct p; [congruence|]. simpl in Hlen. lia. }
      destruct (IH rest Hrest) as (pre & Hrun & Heq & Hnone).
      exists (p ++ pre)%list. split; [constructor; assumption|].
      split; [|exact Hnone]. rewrite <- app_assoc, <- Heq. reflexivity.
    + exists []. split; [constructor|]. split; [reflexivity | exact Hf].
Qed.

Lemma runOf_app (pats : list (list ascii)) (l k : list ascii) :
  runOf pats l -> runOf pats k -> runOf pats (l ++ k)%list.
Proof.
  intros Hl Hk. induction Hl as [|p l Hp _ IH]; [exact Hk|].
  rewrite <- app_assoc. constructor; assumption.
Qed.

Lemma runOf_rev (pats : list (list ascii)) (l : list ascii) :
  runOf (List.map (@List.rev ascii) pats) l -> runOf pats (List.rev l).
Proof.
  intros Hl. induction Hl as [|p l Hp _ IH]; [constructor|].
  rewrite rev_app_distr. apply runOf_app; [exact IH|].
  apply in_map_iff in Hp as (q & <- & Hq). rewrite rev_involutive.
  rewrite <- (app_nil_r q). constructor; [assumption | constructor].
Qed.

Lemma spaceBytes_nonempty (p : list ascii) : In p spaceBytes -> p <> [].
Proof.
  intros Hp ->. revert Hp. vm_compute. intuition discriminate.
Qed.

Lemma trimLeft_spec (l : list ascii) :
  exists pre,
    whiteSpace pre /\ l = (pre ++ trimLeft l)%list /\
    ~ startsWithSpace (trimLeft l).
Proof.
  destruct (dropSpaces_split spaceBytes (List.length l) l
              spaceBytes_nonempty (le_n _)) as (pre & Hrun & Heq & Hnone).
  exists pre. split; [exact Hrun|]. split; [exact Heq|].
  intros (p & rest & Hp & Hst).
  pose proof (List.find_none _ _ Hnone p Hp) as Hfalse. simpl in Hfalse.
  assert (hasPrefix p (trimLeft l) = true) as Htrue
    by (apply hasPrefix_true; eauto).
  unfold trimLeft in Htrue. congruence.
Qed.

Lemma trimRight_spec (l : list ascii) :
  exists post,
    whiteSpace post /\ l = (trimRight l ++ post)%list /\
    ~ endsWithSpace (trimRight l).
Proof.
  assert (Hne : forall p, In p (List.map (@List.rev ascii) spaceBytes) ->
                          p <> []).
  { intros p Hp. apply in_map_iff in Hp as (q & <- & Hq).
    intros Hr. apply (spaceBytes_nonempty q Hq).
    rewrite <- (rev_involutive q), Hr. reflexivity. }
  assert (Hlen : (List.length (List.rev l) <= List.length l)%nat)
    by (rewrite length_rev; lia).
  destruct (dropSpaces_split _ (List.length l) (List.rev l) Hne Hlen)
    as (pre & Hrun & Heq & Hnone).
  exists (List.rev pre). split; [apply runOf_rev; exact Hrun|]. split.
  - unfold trimRight. rewrite <- rev_app_distr, <- Heq, rev_involutive.
    reflexivity.
  - intros (p & init & Hp & Hend).
    assert (Hin : In (List.rev p) (List.map (@List.rev ascii) spaceBytes))
      by (apply in_map; exact Hp).
    pose proof (List.find_none _ _ Hnone (List.rev p) Hin) as Hfalse.
    cbv beta in Hfalse.
    assert (hasPrefix (List.rev p)
              (dropSpaces (List.map (@List.rev ascii) spaceBytes)
                          (List.length l) (List.rev l)) = true) as Htrue.
    { apply hasPrefix_true. exists (List.rev init).
      unfold trimRight in Hend.
      rewrite <- rev_app_distr, <- Hend, rev_involutive. reflexivity. }
    rewrite Htrue in Hfalse. discriminate Hfalse.
Qed.

Lemma TrimSpace_trimmedTo (s : string) : trimmedTo s (TrimSpace s).
Proof.
  unfold trimmedTo, TrimSpace.
  rewrite list_ascii_of_string_of_list_ascii.
  set (l := list_ascii_of_string s).
  destruct (trimLeft_spec l) as (pre & Hpre & Hl & Hstart).
  destruct (trimRight_spec (trimLeft l)) as (post & Hpost & Hr & Hend).
  exists pre, post. split; [exact Hpre|]. split; [exact Hpost|].
  split; [rewrite <- Hr; exact Hl|]. split; [|exact Hend].
  intros (p & rest & Hp & Hst). apply Hstart.
  exists p, (rest ++ post)%list. split; [exact Hp|].
  rewrite Hr at 1. rewrite Hst, <- app_assoc. reflexivity.
Qed.

Example TrimSpace_trims :
  TrimSpace (nbsp ++ "Beta ")%string = "Beta" /\
  TrimSpace "   " = "" /\ TrimSpace " 7 " = "7" /\
  TrimSpace ("Alpha" ++ tab)%string = "Alpha".
Proof. repeat split; vm_compute; reflexivity. Qed.

Lemma numeric_not (id name : string) :
  isNumeric id = true -> isNumeric name = false -> String.eqb name id = false.
Proof.
  intros Hid Hname. apply String.eqb_neq. intros ->. congruence.
Qed.

(** C5: when the cluster lookup finds a [nextgen-host] record whose stored
    name is empty or equal to the id, [Resolve] queries the premium cluster
    detail names of that parent id, trims each name, drops those that are
    then empty or equal to the id, and returns the survivors joined with
    [", "] in the order received (newest first); with no survivor (also
    when the query fails or returns no row) the stored name is kept.
    Trimming a name leaves it without its leading and trailing runs of
    white space, and with no white space at either end. Rows
    ["Beta"; "Alpha"] give the name "Beta, Alpha", and so do the rows
    [nbsp "Beta "; "   "; "Alpha" tab]. *)
Theorem Resolve_nextgen_premium_names (db : DB) (now : Time) (id : string)
    (w : World) (ci : ClusterInfo) :
  isNumeric id = true ->
  validEntry (resolver w) now id = None ->
  select_cluster db id = Scanned ci ->
  ci_DeployType ci = "nextgen-host" ->
  ci_ClusterName ci = "" \/ ci_ClusterName ci = id ->
  let out := Resolve (Some db) now id w in
  let survivors :=
    List.filter (usable id) (List.map TrimSpace (fetchedNames db id)) in
  issued out.2 = (issued w ++ [QCluster id; QPremiumNames id])%list /\
  out.1 =
    (mkNameInfo "cluster" id
       (match survivors with
        | [] => ci_ClusterName ci
        | _ :: _ => Join survivors ", "
        end)
       (ci_TenantID ci) (ci_TenantName ci), None) /\
  (forall names,
      select_premium_names db id = Rows (List.map NameOk names) ->
      fetchedNames db id = names) /\
  (forall e, select_premium_names db id = QueryFailed e ->
      fetchedNames db id = []) /\
  (select_premium_names db id = Rows [NameOk "Beta"; NameOk "Alpha"] ->
   Name out.1.1 = "Beta, Alpha") /\
  (forall name, trimmedTo name (TrimSpace name)) /\
  (select_premium_names db id =
     Rows [NameOk (nbsp ++ "Beta ")%string; NameOk "   ";
           NameOk ("Alpha" ++ tab)%string] ->
   Name out.1.1 = "Beta, Alpha").
Proof.
  intros Hnum Hmiss Hc Hd Hn out survivors.
  assert (Hout : out =
    ((mkNameInfo "cluster" id
       (match survivors with
        | [] => ci_ClusterName ci
        | _ :: _ => Join survivors ", "
        end)
       (ci_TenantID ci) (ci_TenantName ci), None),
     effect id
       (Some (mkCacheEntry
          (mkNameInfo "cluster" id
             (match survivors with
              | [] => ci_ClusterName ci
              | _ :: _ => Join survivors ", "
              end)
             (ci_TenantID ci) (ci_TenantName ci)) false now))
       [QPremiumNames id] []
       (mkWorld (resolver w) (issued w ++ [QCluster id])%list))).
  { subst out. rewrite (Resolve_miss_eq _ _ _ _ Hnum Hmiss). simpl.
    unfold resolveFromBackend, getCluster, bind, sendQuery, ret.
    rewrite Hc. apply resolveCluster_nextgen; assumption. }
  assert (Hrows : forall names,
             select_premium_names db id = Rows (List.map NameOk names) ->
             fetchedNames db id = names).
  { intros names Hp. unfold fetchedNames. run_effects. rewrite Hp.
    rewrite scanNames_ok. reflexivity. }
  rewrite Hout. simpl. split; [rewrite <- app_assoc; reflexivity|].
  split; [reflexivity|]. split; [exact Hrows|].
  split; [|split; [|split; [exact TrimSpace_trimmedTo|]]].
  - intros e Hp. unfold fetchedNames. run_effects. rewrite Hp. reflexivity.
  - intros Hp. subst survivors.
    rewrite (Hrows ["Beta"; "Alpha"] Hp). cbn [List.map].
    replace (TrimSpace "Beta") with "Beta" by (vm_compute; reflexivity).
    replace (TrimSpace "Alpha") with "Alpha" by (vm_compute; reflexivity).
    cbn [List.filter]. unfold usable.
    rewrite !(numeric_not id) by (assumption || reflexivity).
    reflexivity.
  - intros Hp. subst survivors.
    rewrite (Hrows [(nbsp ++ "Beta ")%string; "   ";
                    ("Alpha" ++ tab)%string] Hp). cbn [List.map].
    destruct TrimSpace_trims as (-> & -> & _ & ->).
    cbn [List.filter]. unfold usable.
    rewrite !(numeric_not id) by (assumption || reflexivity).
    reflexivity.
Qed.

Lemma Resolve_nextgen_premium_names_witness :
  let out := Resolve (Some db_nextgen_spaced) 5 "7" fresh_world in
  fetchedNames db_nextgen_spaced "7" =
    [(nbsp ++ "Beta ")%string; "   "; " 7 "; ("Alpha" ++ tab)%string] /\
  Name out.1.1 = "Beta, Alpha" /\
  trimmedTo " 7 " (TrimSpace " 7 ").
Proof.
  pose proof (Resolve_nextgen_premium_names db_nextgen_spaced 5 "7"
                fresh_world ci_nextgen eq_refl eq_refl eq_refl eq_refl
                (or_introl eq_refl)) as H.
  cbv zeta in H.
  split;
    [exact (proj1 (proj2 (proj2 H))
              [(nbsp ++ "Beta ")%string; "   "; " 7 ";
               ("Alpha" ++ tab)%string] eq_refl)|].
  split; [|exact (proj1 (proj2 (proj2 (proj2 (proj2 (proj2 H))))) " 7 ")].
  rewrite (proj1 (proj2 H)). vm_compute. reflexivity.
Defined.

(** ** Entry validity *)

Lemma Since_lt (now t : Time) (ttl : Duration) :
  ttl_ok ttl -> (Since now t <? ttl) = true <-> now - t < ttl.
Proof.
  unfold ttl_ok, Since, Sub, minDuration, maxDuration. intros H.
  rewrite Z.ltb_lt.
  repeat match goal with
         | |- context [?a <? ?b] => destruct (Z.ltb_spec a b)
         end; lia.
Qed.

Lemma isEntryValid_iff (nr : NameResolver) (now : Time) (entry : cacheEntry) :
  ttl_ok (cacheTTL nr) -> ttl_ok (notFoundTTL nr) ->
  isEntryValid nr now entry = true <->
  now - timestamp entry <
    (if notFound entry then notFoundTTL nr else cacheTTL nr).
Proof.
  intros H1 H2. unfold isEntryValid.
  destruct (notFound entry); apply Since_lt; assumption.
Qed.

Lemma isEntryValid_false_iff (nr : NameResolver) (now : Time)
    (entry : cacheEntry) :
  ttl_ok (cacheTTL nr) -> ttl_ok (notFoundTTL nr) ->
  isEntryValid nr now entry = false <->
  (if notFound entry then notFoundTTL nr else cacheTTL nr)
    <= now - timestamp entry.
Proof.
  intros H1 H2. pose proof (isEntryValid_iff nr now entry H1 H2) as H.
  destruct (isEntryValid nr now entry).
  - split; [discriminate|]. intros Hle. apply proj1 in H.
    specialize (H eq_refl). lia.
  - split; [|reflexivity]. intros _.
    destruct (Z.le_gt_cases
                (if notFound entry then notFoundTTL nr else cacheTTL nr)
                (now - timestamp entry)) as [Hle|Hgt]; [assumption|].
    apply proj2 in H. apply H in Hgt. discriminate.
Qed.

Lemma GetNameResolver_ttl_ok :
  ttl_ok (cacheTTL GetNameResolver) /\ ttl_ok (notFoundTTL GetNameResolver).
Proof.
  unfold ttl_ok, minDuration, maxDuration, GetNameResolver, Hour, Second,
    Nanosecond; simpl cacheTTL; simpl notFoundTTL. lia.
Qed.

Lemma Resolve_stale_as_absent (TiDB : option DB) (now : Time) (id : string)
    (nr : NameResolver) (qs : list Query) (entry : cacheEntry) :
  cache nr !! id = Some entry ->
  isEntryValid nr now entry = false ->
  let out := Resolve TiDB now id (mkWorld nr qs) in
  let out' := Resolve TiDB now id (mkWorld (without id nr) qs) in
  out.1 = out'.1 /\
  issued out.2 = issued out'.2 /\
  missLogger (resolver out.2) = missLogger (resolver out'.2) /\
  (cache (resolver out.2) = cache nr \/
   cache (resolver out.2) = cache (resolver out'.2)) /\
  is_Some (cache (resolver out.2) !! id).
Proof.
  intros Hc Hv out out'. subst out out'.
  destruct (isNumeric id) eqn:Hnum.
  - assert (H1 : validEntry nr now id = None).
    { apply validEntry_None. intros e He. congruence. }
    assert (H2 : validEntry (without id nr) now id = None).
    { apply validEntry_None. intros e He. simpl in He.
      rewrite lookup_delete_eq in He. discriminate. }
    rewrite (Resolve_uncached TiDB now id (mkWorld nr qs) Hnum H1).
    rewrite (Resolve_uncached TiDB now id (mkWorld (without id nr) qs) Hnum H2).
    unfold effect. simpl.
    destruct (round_stored TiDB now id) as [e|].
    + rewrite insert_delete_eq, lookup_insert_eq. eauto 6.
    + rewrite Hc. eauto 6.
  - unfold Resolve. rewrite Hnum. simpl.
    destruct (String.eqb id ""); unfold ret; simpl; rewrite Hc; eauto 6.
Qed.

(** C4: the TTL of an entry is [notFoundTTL] when its [notFound] flag is
    set and [cacheTTL] otherwise, 1h and 24h in the resolver
    [GetNameResolver] builds; the entry is valid exactly when
    [now - timestamp < ttl]. An entry that is not valid is absent for the
    cache check of [Resolve]: the call returns, queries and logs as it
    does with the entry taken out of the cache; and the check does not
    remove it: afterwards the key still holds an entry, the cache being
    either untouched or the one the same call produces from the cache
    without the entry (the stale entry overwritten by the new result). *)
Theorem entry_validity (TiDB : option DB) (now : Time) (id : string)
    (nr : NameResolver) (qs : list Query) (entry : cacheEntry) :
  ttl_ok (cacheTTL nr) -> ttl_ok (notFoundTTL nr) ->
  cache nr !! id = Some entry ->
  let ttl := if notFound entry then notFoundTTL nr else cacheTTL nr in
  (isEntryValid nr now entry = true <-> now - timestamp entry < ttl) /\
  (cacheTTL GetNameResolver = 24 * 3600 * 1000000000 /\
   notFoundTTL GetNameResolver = 3600 * 1000000000 /\
   ttl_ok (cacheTTL GetNameResolver) /\
   ttl_ok (notFoundTTL GetNameResolver)) /\
  (isEntryValid nr now entry = false ->
   validEntry nr now id = None /\
   let out := Resolve TiDB now id (mkWorld nr qs) in
   let out' := Resolve TiDB now id (mkWorld (without id nr) qs) in
   out.1 = out'.1 /\
   issued out.2 = issued out'.2 /\
   missLogger (resolver out.2) = missLogger (resolver out'.2) /\
   (cache (resolver out.2) = cache nr \/
    cache (resolver out.2) = cache (resolver out'.2)) /\
   is_Some (cache (resolver out.2) !! id)).
Proof.
  intros H1 H2 Hc ttl. split; [apply isEntryValid_iff; assumption|].
  split.
  { split; [vm_compute; reflexivity|]. split; [vm_compute; reflexivity|].
    exact GetNameResolver_ttl_ok. }
  intros Hv. split.
  - apply validEntry_None. intros e He. congruence.
  - apply Resolve_stale_as_absent with (entry := entry); assumption.
Qed.

Lemma entry_validity_witness :
  isEntryValid stale_resolver (2 * Hour) stale_entry = false /\
  ~ (2 * Hour - timestamp stale_entry < notFoundTTL stale_resolver) /\
  is_Some (cache (resolver
     (Resolve None (2 * Hour) "7" (mkWorld stale_resolver [])).2) !! "7").
Proof.
  pose proof (entry_validity None (2 * Hour) "7" stale_resolver [] stale_entry)
    as H.
  destruct H as (Hiff & _ & Hstale).
  - apply GetNameResolver_ttl_ok.
  - apply GetNameResolver_ttl_ok.
  - vm_compute. reflexivity.
  - split; [reflexivity|]. split.
    + intros Hlt. apply Hiff in Hlt. discriminate Hlt.
    + apply (Hstale eq_refl).
Defined.

(** ** Housekeeping: the sweep and the statistics *)

Section Counting.

Context {A : Type}.

Lemma filter_bool_eq (f : A -> bool) (l : list A) :
  filter (fun x => f x = true) l = List.filter f l.
Proof.
  induction l as [|x l IH]; [reflexivity|].
  rewrite filter_cons. simpl. rewrite IH.
  destruct (f x); case_decide; congruence.
Qed.

Lemma length_filter_split (f : A -> bool) (l : list A) :
  List.length l =
  (List.length (List.filter f l)
   + List.length (List.filter (fun x => negb (f x)) l))%nat.
Proof.
  induction l as [|x l IH]; [reflexivity|].
  simpl. destruct (f x); simpl; lia.
Qed.

End Counting.

Lemma size_filter_bool (f : string * cacheEntry -> bool)
    (m : gmap string cacheEntry) (l : list (string * cacheEntry)) :
  l ≡ₚ map_to_list m ->
  size (filter (fun kv => f kv = true) m) = List.length (List.filter f l).
Proof.
  intros Hl. rewrite map_filter_alt, map_size_list_to_map.
  - rewrite <- Hl, filter_bool_eq. reflexivity.
  - eapply sublist_NoDup; [apply (NoDup_fst_map_to_list m)|].
    apply fmap_sublist, sublist_filter.
Qed.

Lemma count_filter (f : string * cacheEntry -> bool)
    (P : string * cacheEntry -> Prop) `{!forall kv, Decision (P kv)}
    (m : gmap string cacheEntry) (l : list (string * cacheEntry)) :
  (forall kv, f kv = true <-> P kv) ->
  l ≡ₚ map_to_list m ->
  Z.of_nat (List.length (List.filter f l)) = Z.of_nat (size (filter P m)).
Proof.
  intros Hf Hl. rewrite <- (size_filter_bool f m l Hl).
  f_equal. f_equal. apply map_filter_ext. intros k e _. apply Hf.
Qed.

Lemma elem_of_range (m : gmap string cacheEntry)
    (l : list (string * cacheEntry)) (k : string) (e : cacheEntry) :
  l ≡ₚ map_to_list m -> (k, e) ∈ l <-> m !! k = Some e.
Proof. intros Hl. rewrite Hl. apply elem_of_map_to_list. Qed.

Lemma cleanEntry_fold_lookup (nr : NameResolver) (now : Time)
    (l : list (string * cacheEntry)) (c : gmap string cacheEntry) (n : Z)
    (k : string) (e : cacheEntry) :
  (fold_left (cleanEntry nr now) l (c, n)).1 !! k = Some e <->
  c !! k = Some e /\
  (forall e', (k, e') ∈ l -> isEntryValid nr now e' = true).
Proof.
  revert c n. induction l as [|[k0 e0] l IH]; intros c n.
  - simpl. split; [intros H; split; [assumption|] | intros [H _]; assumption].
    intros e' He'. inversion He'.
  - cbn [fold_left]. unfold cleanEntry at 2.
    destruct (isEntryValid nr now e0) eqn:Hv; cbn [negb]; rewrite IH.
    + split; intros [Hc Hall]; (split; [assumption|]).
      * intros e' He'. apply elem_of_cons in He' as [[= -> ->]|He'];
          [assumption | auto].
      * intros e' He'. apply Hall. apply elem_of_cons. auto.
    + split.
      * intros [Hc Hall]. apply lookup_delete_Some in Hc as [Hne Hc].
        split; [assumption|]. intros e' He'.
        apply elem_of_cons in He' as [[= -> ->]|He']; [congruence | auto].
      * intros [Hc Hall]. split.
        -- apply lookup_delete_Some. split; [|assumption].
           intros <-.
           assert (isEntryValid nr now e0 = true)
             by (apply Hall, elem_of_cons; auto).
           congruence.
        -- intros e' He'. apply Hall. apply elem_of_cons. auto.
Qed.

Lemma cleanEntry_fold_count (nr : NameResolver) (now : Time)
    (l : list (string * cacheEntry)) (c : gmap string cacheEntry) (n : Z) :
  (fold_left (cleanEntry nr now) l (c, n)).2 =
  n + Z.of_nat (List.length
        (List.filter (fun kv => negb (isEntryValid nr now kv.2)) l)).
Proof.
  revert c n. induction l as [|[k0 e0] l IH]; intros c n.
  - simpl. lia.
  - cbn [fold_left List.filter]. unfold cleanEntry at 2. cbn [snd].
    destruct (isEntryValid nr now e0); cbn [negb]; rewrite IH;
      cbn [List.length]; lia.
Qed.

Lemma cleanEntry_fold_cache (nr : NameResolver) (now : Time)
    (l : list (string * cacheEntry)) (c : gmap string cacheEntry) (n : Z) :
  l ≡ₚ map_to_list c ->
  (fold_left (cleanEntry nr now) l (c, n)).1 =
  filter (fun kv => isEntryValid nr now kv.2 = true) c.
Proof.
  intros Hl. apply map_eq. intros k. apply option_eq. intros e.
  rewrite cleanEntry_fold_lookup, map_lookup_filter_Some. simpl.
  split.
  - intros [Hc Hall]. split; [assumption|]. apply Hall.
    apply (elem_of_range c l k e Hl). assumption.
  - intros [Hc Hv]. split; [assumption|]. intros e' He'.
    apply (elem_of_range c l k e' Hl) in He'. congruence.
Qed.

Lemma CleanExpiredCache_run
    (range : gmap string cacheEntry -> list (string * cacheEntry))
    (now : Time) (w : World) :
  let nr := resolver w in
  let swept :=
    fold_left (cleanEntry nr now) (range (cache nr)) (cache nr, 0) in
  CleanExpiredCache range now w =
    (swept.2,
     mkWorld (mkNameResolver swept.1 (missLogger nr) (cacheTTL nr)
                             (notFoundTTL nr))
             (issued w)).
Proof.
  simpl. unfold CleanExpiredCache, bind, getResolver.
  destruct (fold_left _ _ _) as [c cleaned]. reflexivity.
Qed.

(** C7: whatever the order in which the map is iterated,
    [CleanExpiredCache] leaves in the cache exactly the entries whose
    validity check succeeds at the time of the call, each of them
    unchanged, removes every other entry (those whose age is at least the
    TTL of their class), and returns the number of entries removed; the
    logger, the TTLs and the query trace are not touched. *)
Theorem CleanExpiredCache_exact
    (range : gmap string cacheEntry -> list (string * cacheEntry))
    (now : Time) (w : World) :
  (forall m, range m ≡ₚ map_to_list m) ->
  ttl_ok (cacheTTL (resolver w)) -> ttl_ok (notFoundTTL (resolver w)) ->
  let nr := resolver w in
  let out := CleanExpiredCache range now w in
  let nr' := resolver out.2 in
  cache nr' = filter (fun kv => isEntryValid nr now kv.2 = true) (cache nr) /\
  (forall k e, cache nr !! k = Some e ->
     cache nr' !! k = if isEntryValid nr now e then Some e else None) /\
  (forall k, cache nr !! k = None -> cache nr' !! k = None) /\
  (forall k e, cache nr !! k = Some e ->
     (cache nr' !! k = None <->
      (if notFound e then notFoundTTL nr else cacheTTL nr)
        <= now - timestamp e)) /\
  out.1 = Z.of_nat
            (size (filter (fun kv => isEntryValid nr now kv.2 = false)
                          (cache nr))) /\
  Z.of_nat (size (cache nr)) = out.1 + Z.of_nat (size (cache nr')) /\
  missLogger nr' = missLogger nr /\ cacheTTL nr' = cacheTTL nr /\
  notFoundTTL nr' = notFoundTTL nr /\ issued out.2 = issued w.
Proof.
  intros Hrange Ht1 Ht2 nr out nr'. subst out nr'.
  rewrite CleanExpiredCache_run. simpl. fold nr.
  pose proof (cleanEntry_fold_cache nr now (range (cache nr)) (cache nr) 0
                (Hrange _)) as Hcache.
  assert (Hlook : forall k e, cache nr !! k = Some e ->
     (fold_left (cleanEntry nr now) (range (cache nr)) (cache nr, 0)).1 !! k
     = if isEntryValid nr now e then Some e else None).
  { intros k e Hk. rewrite Hcache.
    destruct (isEntryValid nr now e) eqn:Hv.
    - apply map_lookup_filter_Some. auto.
    - apply map_lookup_filter_None. right. intros e' He'. simpl.
      congruence. }
  assert (Hcount :
    (fold_left (cleanEntry nr now) (range (cache nr)) (cache nr, 0)).2 =
    Z.of_nat (size (filter (fun kv => isEntryValid nr now kv.2 = false)
                           (cache nr)))).
  { rewrite cleanEntry_fold_count. rewrite Z.add_0_l.
    apply count_filter; [|apply Hrange]. intros [k e]. simpl.
    destruct (isEntryValid nr now e); simpl; split; congruence. }
  split; [exact Hcache|]. split; [exact Hlook|]. split.
  { intros k Hk. rewrite Hcache. apply map_lookup_filter_None. left.
    assumption. }
  split.
  { intros k e Hk. rewrite (Hlook k e Hk).
    rewrite <- (isEntryValid_false_iff nr now e Ht1 Ht2).
    destruct (isEntryValid nr now e); split; congruence. }
  split; [exact Hcount|]. split; [|auto].
  rewrite cleanEntry_fold_count, Hcache. simpl.
  rewrite (size_filter_bool (fun kv => isEntryValid nr now kv.2)
             (cache nr) (range (cache nr)) (Hrange _)).
  rewrite <- (length_map_to_list (cache nr)), <- (Hrange (cache nr)).
  rewrite (length_filter_split (fun kv => isEntryValid nr now kv.2)
             (range (cache nr))).
  lia.
Qed.

Lemma CleanExpiredCache_exact_witness :
  let now := 2 * Hour in
  let w := clean_world in
  let nr := resolver w in
  let out := CleanExpiredCache map_to_list now w in
  let nr' := resolver out.2 in
  cache nr' = filter (fun kv => isEntryValid nr now kv.2 = true) (cache nr) /\
  (forall k e, cache nr !! k = Some e ->
     cache nr' !! k = if isEntryValid nr now e then Some e else None) /\
  (forall k, cache nr !! k = None -> cache nr' !! k = None) /\
  (forall k e, cache nr !! k = Some e ->
     (cache nr' !! k = None <->
      (if notFound e then notFoundTTL nr else cacheTTL nr)
        <= now - timestamp e)) /\
  out.1 = Z.of_nat
            (size (filter (fun kv => isEntryValid nr now kv.2 = false)
                          (cache nr))) /\
  Z.of_nat (size (cache nr)) = out.1 + Z.of_nat (size (cache nr')) /\
  missLogger nr' = missLogger nr /\ cacheTTL nr' = cacheTTL nr /\
  notFoundTTL nr' = notFoundTTL nr /\ issued out.2 = issued w.
Proof.
  exact (CleanExpiredCache_exact map_to_list (2 * Hour) clean_world
           (fun m => Permutation_refl (map_to_list m))
           (proj1 GetNameResolver_ttl_ok) (proj2 GetNameResolver_ttl_ok)).
Defined.

Example CleanExpiredCache_example :
  (CleanExpiredCache map_to_list (2 * Hour) clean_world).1 = 1 /\
  cache (resolver (CleanExpiredCache map_to_list (2 * Hour) clean_world).2)
    = {["42" := hit_entry]}.
Proof. split; vm_compute; reflexivity. Qed.

Lemma countEntry_fold (nr : NameResolver) (now : Time)
    (l : list (string * cacheEntry)) (a b c : Z) :
  fold_left (countEntry nr now) l (a, b, c) =
  (a + Z.of_nat (List.length (List.filter (isFound nr now) l)),
   b + Z.of_nat (List.length (List.filter (isNotFound nr now) l)),
   c + Z.of_nat (List.length (List.filter (isExpired nr now) l))).
Proof.
  revert a b c. induction l as [|[k e] l IH]; intros a b c.
  - simpl. rewrite !pair_equal_spec. lia.
  - cbn [fold_left List.filter]. unfold countEntry at 2.
    unfold isFound at 1, isNotFound at 1, isExpired at 1. cbn [snd].
    destruct (isEntryValid nr now e), (notFound e); cbn [negb andb];
      rewrite IH; cbn [List.length]; rewrite !pair_equal_spec; lia.
Qed.

Lemma length_three_way (nr : NameResolver) (now : Time)
    (l : list (string * cacheEntry)) :
  List.length l =
  (List.length (List.filter (isFound nr now) l)
   + List.length (List.filter (isNotFound nr now) l)
   + List.length (List.filter (isExpired nr now) l))%nat.
Proof.
  induction l as [|[k e] l IH]; [reflexivity|].
  unfold isFound, isNotFound, isExpired in *. simpl.
  destruct (isEntryValid nr now e), (notFound e); simpl; lia.
Qed.

Lemma GetCacheStats_run
    (range : gmap string cacheEntry -> list (string * cacheEntry))
    (now : Time) (w : World) :
  let nr := resolver w in
  let l := range (cache nr) in
  GetCacheStats range now w =
    (mkCacheStats
       (Z.of_nat (size (cache nr)))
       (Z.of_nat (List.length (List.filter (isFound nr now) l)))
       (Z.of_nat (List.length (List.filter (isNotFound nr now) l)))
       (Z.of_nat (List.length (List.filter (isExpired nr now) l)))
       (cacheTTL nr) (notFoundTTL nr),
     w).
Proof.
  simpl. unfold GetCacheStats, bind, getResolver.
  rewrite countEntry_fold. reflexivity.
Qed.

(** C8: [GetCacheStats] leaves the world as it is and classifies every
    stored entry, in whatever order the map is iterated: [total] is the
    number of entries, [expired] the number of those whose TTL has lapsed,
    [found] and [not_found] the numbers of valid positive and valid
    negative ones, so [total = found + not_found + expired]. With no
    expired entry in a cache of N positive and M negative entries it
    reports [found = N], [not_found = M] and [total = N + M]. *)
Theorem GetCacheStats_counts
    (range : gmap string cacheEntry -> list (string * cacheEntry))
    (now : Time) (w : World) :
  (forall m, range m ≡ₚ map_to_list m) ->
  let nr := resolver w in
  let out := GetCacheStats range now w in
  let st := out.1 in
  let count (P : string * cacheEntry -> Prop) `{!forall kv, Decision (P kv)} :=
    Z.of_nat (size (filter P (cache nr))) in
  out.2 = w /\
  st_total st = Z.of_nat (size (cache nr)) /\
  st_found st =
    count (fun kv => isEntryValid nr now kv.2 = true /\ notFound kv.2 = false) /\
  st_not_found st =
    count (fun kv => isEntryValid nr now kv.2 = true /\ notFound kv.2 = true) /\
  st_expired st = count (fun kv => isEntryValid nr now kv.2 = false) /\
  st_total st = st_found st + st_not_found st + st_expired st /\
  st_cache_ttl st = cacheTTL nr /\ st_not_found_ttl st = notFoundTTL nr /\
  ((forall k e, cache nr !! k = Some e -> isEntryValid nr now e = true) ->
   st_found st = count (fun kv => notFound kv.2 = false) /\
   st_not_found st = count (fun kv => notFound kv.2 = true) /\
   st_expired st = 0 /\
   st_total st = st_found st + st_not_found st).
Proof.
  intros Hrange nr out st count. subst out st count.
  rewrite GetCacheStats_run. fold nr. simpl.
  set (l := range (cache nr)).
  assert (Hl : l ≡ₚ map_to_list (cache nr)) by apply Hrange.
  assert (Hf : Z.of_nat (List.length (List.filter (isFound nr now) l)) =
    Z.of_nat (size (filter
      (fun kv => isEntryValid nr now kv.2 = true /\ notFound kv.2 = false)
      (cache nr)))).
  { apply count_filter; [|exact Hl]. intros [k e].
    unfold isFound. simpl.
    destruct (isEntryValid nr now e), (notFound e); simpl;
      intuition congruence. }
  assert (Hn : Z.of_nat (List.length (List.filter (isNotFound nr now) l)) =
    Z.of_nat (size (filter
      (fun kv => isEntryValid nr now kv.2 = true /\ notFound kv.2 = true)
      (cache nr)))).
  { apply count_filter; [|exact Hl]. intros [k e].
    unfold isNotFound. simpl.
    destruct (isEntryValid nr now e), (notFound e); simpl;
      intuition congruence. }
  assert (He : Z.of_nat (List.length (List.filter (isExpired nr now) l)) =
    Z.of_nat (size (filter (fun kv => isEntryValid nr now kv.2 = false)
                           (cache nr)))).
  { apply count_filter; [|exact Hl]. intros [k e].
    unfold isExpired. simpl.
    destruct (isEntryValid nr now e); simpl; intuition congruence. }
  assert (Ht : Z.of_nat (size (cache nr)) =
    Z.of_nat (List.length (List.filter (isFound nr now) l))
    + Z.of_nat (List.length (List.filter (isNotFound nr now) l))
    + Z.of_nat (List.length (List.filter (isExpired nr now) l))).
  { rewrite <- (length_map_to_list (cache nr)), <- Hl.
    rewrite (length_three_way nr now l) at 1. lia. }
  repeat (split; [first [reflexivity | assumption]|]).
  intros Hvalid.
  assert (He0 : filter (fun kv => isEntryValid nr now kv.2 = false) (cache nr)
                = ∅).
  { apply map_empty_filter_2. intros k e Hk. simpl.
    rewrite (Hvalid k e Hk). discriminate. }
  rewrite Hf, Hn, He in *. rewrite He0 in *. rewrite map_size_empty in *.
  split; [|split; [|split; [reflexivity | lia]]].
  - f_equal. f_equal. apply map_filter_ext. intros k e Hk. simpl.
    rewrite (Hvalid k e Hk). intuition congruence.
  - f_equal. f_equal. apply map_filter_ext. intros k e Hk. simpl.
    rewrite (Hvalid k e Hk). intuition congruence.
Qed.

Lemma GetCacheStats_counts_witness :
  let range := map_to_list in
  let now := Hour / 2 in
  let w := clean_world in
  let nr := resolver w in
  let out := GetCacheStats range now w in
  let st := out.1 in
  let count (P : string * cacheEntry -> Prop) `{!forall kv, Decision (P kv)} :=
    Z.of_nat (size (filter P (cache nr))) in
  out.2 = w /\
  st_total st = Z.of_nat (size (cache nr)) /\
  st_found st =
    count (fun kv => isEntryValid nr now kv.2 = true /\ notFound kv.2 = false) /\
  st_not_found st =
    count (fun kv => isEntryValid nr now kv.2 = true /\ notFound kv.2 = true) /\
  st_expired st = count (fun kv => isEntryValid nr now kv.2 = false) /\
  st_total st = st_found st + st_not_found st + st_expired st /\
  st_cache_ttl st = cacheTTL nr /\ st_not_found_ttl st = notFoundTTL nr /\
  ((forall k e, cache nr !! k = Some e -> isEntryValid nr now e = true) ->
   st_found st = count (fun kv => notFound kv.2 = false) /\
   st_not_found st = count (fun kv => notFound kv.2 = true) /\
   st_expired st = 0 /\
   st_total st = st_found st + st_not_found st).
Proof.
  exact (GetCacheStats_counts map_to_list (Hour / 2) clean_world
           (fun m => Permutation_refl (map_to_list m))).
Defined.

Example GetCacheStats_example :
  (GetCacheStats map_to_list (Hour / 2) clean_world).1 =
    mkCacheStats 2 1 1 0 (24 * Hour) (1 * Hour) /\
  (GetCacheStats map_to_list (2 * Hour) clean_world).1 =
    mkCacheStats 2 1 0 1 (24 * Hour) (1 * Hour).
Proof. split; vm_compute; reflexivity. Qed.

(** ** Reachable cache states *)

Lemma resolveUncached_stores (TiDB : option DB) (now : Time) (id : string)
    (w : World) :
  let out := resolveUncached TiDB now id w in
  cache (resolver out.2) = cache (resolver w) \/
  exists e, entry_ok id e /\
            cache (resolver out.2) = <[id := e]> (cache (resolver w)).
Proof.
  destruct TiDB as [db|]; simpl.
  - right. destruct (List.find (yields db id) chain) as [s|] eqn:Hs.
    + destruct (Resolve_chain_hit db now id w s Hs) as (_ & _ & Hid & Hc & _).
      eexists. split; [|exact Hc]. split; [exact Hid | discriminate].
    + destruct (Resolve_chain_miss db now id w Hs) as (_ & Hc & _).
      eexists. split; [|exact Hc]. split; reflexivity.
  - left. destruct w as [[c [l|] t1 t2] qs]; reflexivity.
Qed.

Lemma Resolve_stores (TiDB : option DB) (now : Time) (id : string)
    (w : World) :
  let out := Resolve TiDB now id w in
  cache (resolver out.2) = cache (resolver w) \/
  exists e, entry_ok id e /\
            cache (resolver out.2) = <[id := e]> (cache (resolver w)).
Proof.
  simpl. unfold Resolve.
  destruct (String.eqb id ""); [left; reflexivity|].
  destruct (isNumeric id); simpl; [|left; reflexivity].
  unfold bind, getResolver.
  destruct (validEntry (resolver w) now id) as [entry|].
  - left. destruct (notFound entry); reflexivity.
  - apply resolveUncached_stores.
Qed.

Lemma cache_ok_Resolve TiDB now id w :
  cache_ok w -> cache_ok (Resolve TiDB now id w).2.
Proof.
  intros Hok k e. destruct (Resolve_stores TiDB now id w) as [-> | (e' & He' & ->)].
  - apply Hok.
  - destruct (decide (id = k)) as [<-|Hne].
    + rewrite lookup_insert_eq. intros [= <-]. assumption.
    + rewrite lookup_insert_ne by assumption. apply Hok.
Qed.

Lemma cache_ok_CleanExpiredCache range now w :
  cache_ok w -> cache_ok (CleanExpiredCache range now w).2.
Proof.
  intros Hok k e. rewrite CleanExpiredCache_run. simpl.
  rewrite cleanEntry_fold_lookup. intros [Hk _]. apply (Hok k e Hk).
Qed.

(** C10: in every cache state reachable through [Resolve], [ClearCache]
    and [CleanExpiredCache] (and [GetCacheStats]), the entry stored under
    a key [k] has a record whose [ID] is [k], and an entry whose
    [notFound] flag is set has exactly the record [{ID: k, Name: k}] with
    empty type, tenant id and tenant name. *)
Theorem reachable_cache_ok (w : World) (k : string) (e : cacheEntry) :
  reachable w ->
  cache (resolver w) !! k = Some e ->
  ID (info e) = k /\
  (notFound e = true -> info e = mkNameInfo "" k k "" "").
Proof.
  intros Hreach. revert k e. change (cache_ok w).
  induction Hreach as [|TiDB now id w _ IH|w _ IH|range now w _ _ IH
                       |range now w _ _ IH].
  - intros k e Hk. simpl in Hk. rewrite lookup_empty in Hk. discriminate.
  - apply cache_ok_Resolve. assumption.
  - intros k e Hk. simpl in Hk. rewrite lookup_empty in Hk. discriminate.
  - apply cache_ok_CleanExpiredCache. assumption.
  - rewrite GetCacheStats_run. assumption.
Qed.

Lemma reachable_cache_ok_witness :
  let w := (Resolve (Some db_empty) 5 "7" fresh_world).2 in
  let e := mkCacheEntry (NameInfo_id "7") true 5 in
  ID (info e) = "7" /\
  (notFound e = true -> info e = mkNameInfo "" "7" "7" "" "").
Proof.
  apply (reachable_cache_ok (Resolve (Some db_empty) 5 "7" fresh_world).2 "7").
  - apply reach_Resolve, reach_init.
  - vm_compute. reflexivity.
Defined.

(** * Further properties *)

(** ** Serving from the cache *)

Lemma Resolve_hit_eq (TiDB : option DB) (now : Time) (id : string)
    (w : World) (entry : cacheEntry) :
  isNumeric id = true ->
  validEntry (resolver w) now id = Some entry ->
  Resolve TiDB now id w =
    (if notFound entry
     then (NameInfo_id id, Some (errNotFoundCached id))
     else (info entry, None),
     w).
Proof.
  intros Hnum Hv. unfold Resolve.
  rewrite (isNumeric_nonempty _ Hnum), Hnum. simpl.
  unfold bind, getResolver. rewrite Hv.
  destruct (notFound entry); reflexivity.
Qed.

Lemma ResolveEach_hits (TiDB : option DB) (id : string) (w : World)
    (entry : cacheEntry) (times : list Time) :
  isNumeric id = true ->
  Forall (fun t => validEntry (resolver w) t id = Some entry) times ->
  ResolveEach TiDB id times w =
    (repeat (if notFound entry
             then (NameInfo_id id, Some (errNotFoundCached id))
             else (info entry, None)) (List.length times),
     w).
Proof.
  intros Hnum Hall. induction Hall as [|t ts Ht _ IH]; [reflexivity|].
  simpl. unfold bind at 1. rewrite (Resolve_hit_eq _ _ _ _ _ Hnum Ht).
  unfold bind at 1. rewrite IH. reflexivity.
Qed.

Lemma validEntry_fresh (nr : NameResolver) (id : string) (e : cacheEntry)
    (t : Time) :
  ttl_ok (cacheTTL nr) -> ttl_ok (notFoundTTL nr) ->
  cache nr !! id = Some e ->
  t - timestamp e < (if notFound e then notFoundTTL nr else cacheTTL nr) ->
  validEntry nr t id = Some e.
Proof.
  intros H1 H2 Hc Hlt. apply validEntry_Some. split; [assumption|].
  apply isEntryValid_iff; assumption.
Qed.

(** X1: once a backend round has found a record, every later call whose
    clock reading is within [cacheTTL] of that round returns the same
    record with no error and leaves the world as it is; no statement is
    sent, whatever the state of the backend by then. *)
Theorem Resolve_again_within_cacheTTL (db : DB) (TiDB' : option DB)
    (now : Time) (id : string) (w : World) (s : Step) (times : list Time) :
  isNumeric id = true ->
  validEntry (resolver w) now id = None ->
  List.find (yields db id) chain = Some s ->
  ttl_ok (cacheTTL (resolver w)) -> ttl_ok (notFoundTTL (resolver w)) ->
  Forall (fun t => t - now < cacheTTL (resolver w)) times ->
  let first := Resolve (Some db) now id w in
  first.1.2 = None /\
  ResolveEach TiDB' id times first.2 =
    (repeat (first.1.1, None) (List.length times), first.2).
Proof.
  intros Hnum Hmiss Hs Ht1 Ht2 Htimes first. subst first.
  rewrite (Resolve_miss_eq _ _ _ _ Hnum Hmiss). simpl.
  destruct (Resolve_chain_hit db now id w s Hs) as (He & _ & _ & Hc & _).
  split; [exact He|].
  pose proof (frames_resolveFromBackend id db now) as (a & st & q & lg & Hf).
  rewrite Hf in *. simpl in *.
  rewrite (ResolveEach_hits TiDB' id _
             (mkCacheEntry a.1 false now) times Hnum); [reflexivity|].
  eapply Forall_impl; [exact Htimes|]. intros t Ht. simpl in Ht.
  apply validEntry_fresh; simpl; try assumption.
  rewrite Hc. apply lookup_insert_eq.
Qed.

(** X2: once a backend round has ended in a definitive miss, every later
    call whose clock reading is within [notFoundTTL] of that round fails
    with [NotFoundCached], returns [{id, name: id}] and leaves the world as
    it is: no statement is sent and no line is logged, even if the backend
    holds the record by then. *)
Theorem Resolve_again_within_notFoundTTL (db : DB) (TiDB' : option DB)
    (now : Time) (id : string) (w : World) (times : list Time) :
  isNumeric id = true ->
  validEntry (resolver w) now id = None ->
  List.find (yields db id) chain = None ->
  ttl_ok (cacheTTL (resolver w)) -> ttl_ok (notFoundTTL (resolver w)) ->
  Forall (fun t => t - now < notFoundTTL (resolver w)) times ->
  let first := Resolve (Some db) now id w in
  ResolveEach TiDB' id times first.2 =
    (repeat (NameInfo_id id, Some (errNotFoundCached id)) (List.length times),
     first.2).
Proof.
  intros Hnum Hmiss Hs Ht1 Ht2 Htimes first. subst first.
  rewrite (Resolve_miss_eq _ _ _ _ Hnum Hmiss). simpl.
  destruct (Resolve_chain_miss db now id w Hs) as (_ & Hc & _).
  pose proof (frames_resolveFromBackend id db now) as (a & st & q & lg & Hf).
  rewrite Hf in *. simpl in *.
  rewrite (ResolveEach_hits TiDB' id _
             (mkCacheEntry (NameInfo_id id) true now) times Hnum);
    [reflexivity|].
  eapply Forall_impl; [exact Htimes|]. intros t Ht. simpl in Ht.
  apply validEntry_fresh; simpl; try assumption.
  rewrite Hc. apply lookup_insert_eq.
Qed.

Lemma frames_ttl {A : Type} (id : string) (m : M A) (w : World) :
  frames id m ->
  cacheTTL (resolver (m w).2) = cacheTTL (resolver w) /\
  notFoundTTL (resolver (m w).2) = notFoundTTL (resolver w).
Proof. intros (a & st & q & lg & H). rewrite H. split; reflexivity. Qed.

Lemma resolveFromBackend_first_query (db : DB) (now : Time) (id : string)
    (w : World) :
  exists qs,
    issued (resolveFromBackend db now id w).2 =
      (issued w ++ QCluster id :: qs)%list.
Proof.
  destruct (Resolve_chain_queries db now id w) as (qs & Hq & Hf).
  unfold chain, tried in Hf. cbn [List.map stepQuery] in Hf.
  destruct qs as [|q qs]; [discriminate Hf|].
  exists qs. rewrite Hq. f_equal.
  assert (Hhd : forall l, issued (resolveFromBackend db now id w).2 =
                          (issued w ++ l)%list -> hd_error l = Some (QCluster id)).
  { intros l Hl. destruct w as [[c lg t1 t2] qs0].
    revert Hl. run_effects.
    repeat (case_match; simpl in *; simplify_eq);
      rewrite <- ?app_assoc; intros Hl; apply app_inv_head in Hl;
      subst l; reflexivity. }
  specialize (Hhd _ Hq). simpl in Hhd. congruence.
Qed.

(** X3: a definitive miss does not outlive [notFoundTTL]. When the record
    has appeared in the backend, the first call at least [notFoundTTL]
    after the miss queries the backend again (cluster-by-id first), returns
    the record without error and overwrites the negative entry with a
    positive one stamped with the time of that call; the cache does not
    grow. *)
Theorem negative_entry_replaced_after_notFoundTTL (db db' : DB)
    (now t : Time) (id : string) (w : World) (s : Step) :
  isNumeric id = true ->
  validEntry (resolver w) now id = None ->
  List.find (yields db id) chain = None ->
  ttl_ok (cacheTTL (resolver w)) -> ttl_ok (notFoundTTL (resolver w)) ->
  notFoundTTL (resolver w) <= t - now ->
  List.find (yields db' id) chain = Some s ->
  let first := Resolve (Some db) now id w in
  let second := Resolve (Some db') t id first.2 in
  cache (resolver first.2) !! id =
    Some (mkCacheEntry (NameInfo_id id) true now) /\
  second.1.2 = None /\ Type_ second.1.1 = stepKind s /\
  cache (resolver second.2) !! id = Some (mkCacheEntry second.1.1 false t) /\
  size (cache (resolver second.2)) = size (cache (resolver first.2)) /\
  (exists qs, issued second.2 = (issued first.2 ++ QCluster id :: qs)%list).
Proof.
  intros Hnum Hmiss Hs Ht1 Ht2 Hold Hs' first second. subst second first.
  rewrite (Resolve_miss_eq _ _ _ _ Hnum Hmiss). simpl.
  destruct (Resolve_chain_miss db now id w Hs) as (_ & Hc & _).
  simpl in Hc. set (w1 := (resolveFromBackend db now id w).2) in *.
  assert (Hl1 : cache (resolver w1) !! id =
                Some (mkCacheEntry (NameInfo_id id) true now)).
  { rewrite Hc. apply lookup_insert_eq. }
  destruct (frames_ttl id _ w (frames_resolveFromBackend id db now))
    as [Httl1 Httl2]. fold w1 in Httl1, Httl2.
  assert (Hmiss1 : validEntry (resolver w1) t id = None).
  { apply validEntry_None. intros e He. rewrite Hl1 in He.
    injection He as <-.
    apply isEntryValid_false_iff; rewrite ?Httl1, ?Httl2; simpl;
      assumption. }
  rewrite (Resolve_miss_eq _ _ _ _ Hnum Hmiss1). simpl.
  destruct (Resolve_chain_hit db' t id w1 s Hs') as (He & Hk & _ & Hc' & _).
  split; [exact Hl1|]. split; [exact He|]. split; [exact Hk|]. split.
  { rewrite Hc'. apply lookup_insert_eq. }
  split.
  { rewrite Hc'. apply map_size_insert_Some. eauto. }
  apply resolveFromBackend_first_query.
Qed.

(** X4: a cluster record whose stored name is neither empty nor the id is
    returned with that name as it is, whatever its deploy type: the only
    statement sent is cluster-by-id (the premium cluster details are not
    consulted), the record is cached as a positive entry and nothing is
    logged. *)
Theorem Resolve_named_cluster (db : DB) (now : Time) (id : string)
    (w : World) (ci : ClusterInfo) :
  isNumeric id = true ->
  validEntry (resolver w) now id = None ->
  select_cluster db id = Scanned ci ->
  ci_ClusterName ci <> "" -> ci_ClusterName ci <> id ->
  let result :=
    mkNameInfo "cluster" id (ci_ClusterName ci)
               (ci_TenantID ci) (ci_TenantName ci) in
  let nr := resolver w in
  Resolve (Some db) now id w =
    ((result, None),
     mkWorld (mkNameResolver (<[id := mkCacheEntry result false now]> (cache nr))
                             (missLogger nr) (cacheTTL nr) (notFoundTTL nr))
             (issued w ++ [QCluster id])%list).
Proof.
  intros Hnum Hmiss Hc Hne1 Hne2 result nr. subst result nr.
  rewrite (Resolve_miss_eq _ _ _ _ Hnum Hmiss).
  apply String.eqb_neq in Hne1, Hne2.
  destruct w as [[c lg t1 t2] qs]. run_effects.
  rewrite Hc, Hne1, Hne2, andb_false_r. reflexivity.
Qed.

(** ** What a call can and cannot do *)

Lemma resolveUncached_outcome (TiDB : option DB) (now : Time) (id : string)
    (w : World) :
  let out := resolveUncached TiDB now id w in
  (out.1.2 = None /\ ID out.1.1 = id /\
   missLogger (resolver out.2) = missLogger (resolver w)) \/
  (out.1 = (NameInfo_id id, Some (errNotFound id)) /\
   missLogger (resolver out.2) =
     (fun lines => lines ++ [missLine id "not_found_in_database"])%list
       <$> missLogger (resolver w)) \/
  (out.1 = (NameInfo_id id, Some errBackendUnavailable) /\
   missLogger (resolver out.2) =
     (fun lines => lines ++ [missLine id "TiDB_not_connected"])%list
       <$> missLogger (resolver w)).
Proof.
  destruct TiDB as [db|]; simpl.
  - destruct (List.find (yields db id) chain) as [s|] eqn:Hs.
    + left. destruct (Resolve_chain_hit db now id w s Hs)
        as (He & _ & Hid & _ & Hl). auto.
    + right; left. destruct (Resolve_chain_miss db now id w Hs)
        as (Hr & _ & Hl & _). auto.
  - right; right. destruct w as [[c [l|] t1 t2] qs]; split; reflexivity.
Qed.

Lemma Resolve_cases (TiDB : option DB) (now : Time) (id : string) (w : World) :
  (id = "" /\
   Resolve TiDB now id w = ((NameInfo_zero, Some errInvalidInput), w)) \/
  (id <> "" /\ isNumeric id = false /\
   Resolve TiDB now id w = ((NameInfo_id id, None), w)) \/
  (isNumeric id = true /\
   exists entry, validEntry (resolver w) now id = Some entry /\
     Resolve TiDB now id w =
       (if notFound entry
        then (NameInfo_id id, Some (errNotFoundCached id))
        else (info entry, None), w)) \/
  (isNumeric id = true /\ validEntry (resolver w) now id = None /\
   Resolve TiDB now id w = resolveUncached TiDB now id w).
Proof.
  destruct (String.eqb id "") eqn:He.
  { left. apply String.eqb_eq in He. subst id. split; reflexivity. }
  right. destruct (isNumeric id) eqn:Hnum.
  - right. destruct (validEntry (resolver w) now id) as [entry|] eqn:Hv.
    + left. split; [reflexivity|]. exists entry. split; [reflexivity|].
      apply Resolve_hit_eq; assumption.
    + right. split; [reflexivity|]. split; [reflexivity|].
      apply Resolve_miss_eq; assumption.
  - left. apply String.eqb_neq in He. split; [assumption|].
    split; [reflexivity|]. unfold Resolve.
    apply String.eqb_neq in He. rewrite He, Hnum. reflexivity.
Qed.

(** X5: whenever [Resolve] returns an error, the record it returns with it
    is [{id, name: id}] (the zero record for the empty id), so a caller can
    always display the result; and the error is one of [InvalidInput],
    [NotFoundCached], [BackendUnavailable] and [NotFound]: a failure of an
    SQL statement is never passed on. *)
Theorem Resolve_error_record (TiDB : option DB) (now : Time) (id : string)
    (w : World) (e : error) :
  (Resolve TiDB now id w).1.2 = Some e ->
  (Resolve TiDB now id w).1.1 = NameInfo_id id /\
  e ∈ resolveErrors id.
Proof.
  unfold resolveErrors.
  destruct (Resolve_cases TiDB now id w)
    as [[-> ->] | [(_ & _ & ->) | [(_ & entry & _ & ->) | (_ & _ & ->)]]];
    simpl.
  - intros [= <-]. split; [reflexivity|]. set_solver.
  - discriminate.
  - destruct (notFound entry); simpl; [|discriminate].
    intros [= <-]. split; [reflexivity|]. set_solver.
  - destruct (resolveUncached_outcome TiDB now id w)
      as [(He & _) | [(Hr & _) | (Hr & _)]]; simpl in *.
    + rewrite He. discriminate.
    + rewrite Hr. simpl. intros [= <-]. split; [reflexivity|]. set_solver.
    + rewrite Hr. simpl. intros [= <-]. split; [reflexivity|]. set_solver.
Qed.

Lemma Resolve_effect (TiDB : option DB) (now : Time) (id : string)
    (w : World) :
  exists st q lg, (Resolve TiDB now id w).2 = effect id st q lg w.
Proof.
  destruct (Resolve_cases TiDB now id w)
    as [[_ ->] | [(_ & _ & ->) | [(_ & entry & _ & ->) | (_ & _ & ->)]]].
  1-3: exists None, [], []; simpl; rewrite effect_none; reflexivity.
  destruct (frames_resolveUncached id TiDB now) as (a & st & q & lg & H).
  exists st, q, lg. rewrite H. reflexivity.
Qed.

(** X6: a call of [Resolve] for [id] leaves every other key of the cache
    as it is, never removes the entry of [id] (it can only add or replace
    it, so the cache grows by at most one entry), never changes the TTLs,
    and only ever extends the query trace and the miss log. *)
Theorem Resolve_frame (TiDB : option DB) (now : Time) (id : string)
    (w : World) :
  let nr := resolver w in
  let out := Resolve TiDB now id w in
  let nr' := resolver out.2 in
  (forall k, k <> id -> cache nr' !! k = cache nr !! k) /\
  (is_Some (cache nr !! id) -> is_Some (cache nr' !! id)) /\
  (size (cache nr) <= size (cache nr') <= S (size (cache nr)))%nat /\
  cacheTTL nr' = cacheTTL nr /\ notFoundTTL nr' = notFoundTTL nr /\
  (exists qs, issued out.2 = (issued w ++ qs)%list) /\
  (exists lg, missLogger nr' = (fun lines => lines ++ lg)%list <$> missLogger nr).
Proof.
  simpl. destruct (Resolve_effect TiDB now id w) as (st & q & lg & ->).
  unfold effect. simpl.
  split; [|split; [|split; [|eauto 7]]].
  - intros k Hk. destruct st; [|reflexivity].
    apply lookup_insert_ne. congruence.
  - intros Hs. destruct st; [|assumption].
    rewrite lookup_insert_eq. eauto.
  - destruct st as [e|]; [|lia].
    destruct (cache (resolver w) !! id) eqn:Hid.
    + rewrite map_size_insert_Some by eauto. lia.
    + rewrite map_size_insert_None by assumption. lia.
Qed.

Lemma errNotFoundCached_neq (id : string) :
  errNotFoundCached id <> errNotFound id /\
  errNotFoundCached id <> errBackendUnavailable.
Proof. split; intros H; simpl in H; discriminate H. Qed.

Lemma errNotFound_neq (id : string) : errNotFound id <> errBackendUnavailable.
Proof. intros H; simpl in H; discriminate H. Qed.

Lemma errInvalidInput_neq (id : string) :
  errInvalidInput <> errNotFound id /\ errInvalidInput <> errBackendUnavailable.
Proof. split; intros H; simpl in H; discriminate H. Qed.

Lemma loggedFor_values (id : string) :
  loggedFor id None = [] /\
  loggedFor id (Some errInvalidInput) = [] /\
  loggedFor id (Some (errNotFoundCached id)) = [] /\
  loggedFor id (Some (errNotFound id)) = [missLine id "not_found_in_database"] /\
  loggedFor id (Some errBackendUnavailable) = [missLine id "TiDB_not_connected"].
Proof.
  pose proof (errNotFoundCached_neq id) as [? ?].
  pose proof (errNotFound_neq id).
  pose proof (errInvalidInput_neq id) as [? ?].
  unfold loggedFor.
  repeat split; repeat case_decide; simplify_eq; try reflexivity; congruence.
Qed.

(** X7: the miss log records exactly the failures that went to the
    backend or found it missing. With a logger installed, a call that
    returns [NotFound] appends the line
    [ID=<id> reason=not_found_in_database], one that returns
    [BackendUnavailable] appends [ID=<id> reason=TiDB_not_connected], and
    every other call (success, [InvalidInput], [NotFoundCached]) leaves
    the log as it is. *)
Theorem Resolve_miss_log (TiDB : option DB) (now : Time) (id : string)
    (w : World) (lines : list string) :
  missLogger (resolver w) = Some lines ->
  let out := Resolve TiDB now id w in
  missLogger (resolver out.2) = Some (lines ++ loggedFor id out.1.2)%list.
Proof.
  intros Hl. simpl.
  destruct (loggedFor_values id) as (L0 & L1 & L2 & L3 & L4).
  destruct (Resolve_cases TiDB now id w)
    as [[_ ->] | [(_ & _ & ->) | [(_ & entry & _ & ->) | (_ & _ & ->)]]];
    simpl.
  - rewrite L1, app_nil_r. exact Hl.
  - rewrite L0, app_nil_r. exact Hl.
  - destruct (notFound entry); simpl; rewrite ?L0, ?L2, app_nil_r; exact Hl.
  - destruct (resolveUncached_outcome TiDB now id w)
      as [(He & _ & Hlog) | [(Hr & Hlog) | (Hr & Hlog)]]; simpl in *.
    + rewrite He, L0, app_nil_r, Hlog. exact Hl.
    + rewrite Hr, Hlog, Hl. simpl. rewrite L3. reflexivity.
    + rewrite Hr, Hlog, Hl. simpl. rewrite L4. reflexivity.
Qed.

(** ** Sweeps, statistics and clearing together *)

Lemma CleanExpiredCache_world
    (range : gmap string cacheEntry -> list (string * cacheEntry))
    (now : Time) (w : World) :
  (forall m, range m ≡ₚ map_to_list m) ->
  let nr := resolver w in
  (CleanExpiredCache range now w).2 =
    mkWorld (mkNameResolver
               (filter (fun kv => isEntryValid nr now kv.2 = true) (cache nr))
               (missLogger nr) (cacheTTL nr) (notFoundTTL nr))
            (issued w).
Proof.
  intros Hrange nr. rewrite CleanExpiredCache_run. simpl. fold nr.
  rewrite (cleanEntry_fold_cache nr now _ _ 0 (Hrange _)). reflexivity.
Qed.

Lemma CleanExpiredCache_count
    (range : gmap string cacheEntry -> list (string * cacheEntry))
    (now : Time) (w : World) :
  (forall m, range m ≡ₚ map_to_list m) ->
  let nr := resolver w in
  (CleanExpiredCache range now w).1 =
    Z.of_nat (size (cache nr))
    - Z.of_nat (size (filter (fun kv => isEntryValid nr now kv.2 = true)
                             (cache nr))).
Proof.
  intros Hrange nr. rewrite CleanExpiredCache_run. simpl. fold nr.
  rewrite cleanEntry_fold_count.
  rewrite (size_filter_bool (fun kv => isEntryValid nr now kv.2)
             (cache nr) (range (cache nr)) (Hrange _)).
  rewrite <- (length_map_to_list (cache nr)), <- (Hrange (cache nr)).
  rewrite (length_filter_split (fun kv => isEntryValid nr now kv.2)
             (range (cache nr))).
  lia.
Qed.

Lemma isEntryValid_earlier (nr : NameResolver) (t t' : Time)
    (entry : cacheEntry) :
  t <= t' ->
  isEntryValid nr t' entry = true -> isEntryValid nr t entry = true.
Proof.
  intros Hle Hv. destruct (isEntryValid nr t entry) eqn:E; [reflexivity|].
  rewrite (isEntryValid_later nr t t' entry Hle E) in Hv. discriminate.
Qed.

(** X8: sweeps compose. A sweep at [t] followed by a sweep at a later
    clock reading [t'] leaves the same world as a single sweep at [t'], and
    the two counts add up to the count of the single sweep; in particular
    a second sweep at the same clock reading removes nothing and returns
    0. The iteration orders play no role. *)
Theorem CleanExpiredCache_twice
    (range range' : gmap string cacheEntry -> list (string * cacheEntry))
    (t t' : Time) (w : World) :
  (forall m, range m ≡ₚ map_to_list m) ->
  (forall m, range' m ≡ₚ map_to_list m) ->
  t <= t' ->
  let a := CleanExpiredCache range t w in
  let b := CleanExpiredCache range' t' a.2 in
  let direct := CleanExpiredCache range' t' w in
  b.2 = direct.2 /\ a.1 + b.1 = direct.1 /\
  (t' = t -> b.1 = 0 /\ b.2 = a.2).
Proof.
  intros Hr Hr' Hle a b direct. subst a b direct.
  set (nr := resolver w).
  assert (Hff :
    filter (fun kv => isEntryValid nr t' kv.2 = true)
      (filter (fun kv => isEntryValid nr t kv.2 = true) (cache nr)) =
    filter (fun kv => isEntryValid nr t' kv.2 = true) (cache nr)).
  { rewrite map_filter_filter. apply map_filter_ext. intros k e _. simpl.
    split; [intros [? _]; assumption|]. intros Hv. split; [assumption|].
    apply (isEntryValid_earlier nr t t' e Hle Hv). }
  assert (Hw : (CleanExpiredCache range' t'
                  (CleanExpiredCache range t w).2).2 =
               (CleanExpiredCache range' t' w).2).
  { rewrite !CleanExpiredCache_world by assumption. simpl. fold nr.
    change (isEntryValid
              (mkNameResolver
                 (filter (fun kv => isEntryValid nr t kv.2 = true) (cache nr))
                 (missLogger nr) (cacheTTL nr) (notFoundTTL nr)))
      with (isEntryValid nr).
    rewrite Hff. reflexivity. }
  assert (Hn : (CleanExpiredCache range t w).1 +
               (CleanExpiredCache range' t'
                  (CleanExpiredCache range t w).2).1 =
               (CleanExpiredCache range' t' w).1).
  { rewrite !CleanExpiredCache_count by assumption.
    rewrite !CleanExpiredCache_world by assumption. simpl. fold nr.
    change (isEntryValid
              (mkNameResolver
                 (filter (fun kv => isEntryValid nr t kv.2 = true) (cache nr))
                 (missLogger nr) (cacheTTL nr) (notFoundTTL nr)))
      with (isEntryValid nr).
    rewrite Hff. lia. }
  split; [exact Hw|]. split; [exact Hn|].
  intros ->. split.
  - assert (Hn' : (CleanExpiredCache range t w).1 =
                  (CleanExpiredCache range' t w).1).
    { rewrite !CleanExpiredCache_count by assumption. reflexivity. }
    lia.
  - rewrite Hw. rewrite !CleanExpiredCache_world by assumption. reflexivity.
Qed.

Lemma validEntry_swept
    (range : gmap string cacheEntry -> list (string * cacheEntry))
    (now : Time) (w : World) (k : string) :
  (forall m, range m ≡ₚ map_to_list m) ->
  validEntry (resolver (CleanExpiredCache range now w).2) now k =
  validEntry (resolver w) now k.
Proof.
  intros Hr. rewrite CleanExpiredCache_world by assumption.
  set (nr := resolver w). unfold validEntry. simpl.
  change (isEntryValid
            (mkNameResolver
               (filter (fun kv => isEntryValid nr now kv.2 = true) (cache nr))
               (missLogger nr) (cacheTTL nr) (notFoundTTL nr)))
    with (isEntryValid nr).
  destruct (cache nr !! k) as [e|] eqn:Hk.
  - destruct (isEntryValid nr now e) eqn:Hv.
    + rewrite (map_lookup_filter_Some_2 _ _ k e Hk Hv). rewrite Hv.
      reflexivity.
    + assert (filter (fun kv => isEntryValid nr now kv.2 = true) (cache nr)
                !! k = None) as ->; [|reflexivity].
      apply map_lookup_filter_None. right. intros e' He'. simpl.
      congruence.
  - assert (filter (fun kv => isEntryValid nr now kv.2 = true) (cache nr)
              !! k = None) as ->; [|reflexivity].
    apply map_lookup_filter_None. left. assumption.
Qed.

Lemma Resolve_same_view (TiDB : option DB) (now : Time) (id : string)
    (w1 w2 : World) :
  validEntry (resolver w1) now id = validEntry (resolver w2) now id ->
  (Resolve TiDB now id w1).1 = (Resolve TiDB now id w2).1 /\
  (issued w1 = issued w2 ->
   issued (Resolve TiDB now id w1).2 = issued (Resolve TiDB now id w2).2) /\
  (missLogger (resolver w1) = missLogger (resolver w2) ->
   missLogger (resolver (Resolve TiDB now id w1).2) =
   missLogger (resolver (Resolve TiDB now id w2).2)).
Proof.
  intros Hv. unfold Resolve.
  destruct (String.eqb id ""); [simpl; auto|].
  destruct (isNumeric id); simpl; [|auto].
  unfold bind, getResolver. rewrite Hv.
  destruct (validEntry (resolver w2) now id) as [entry|].
  - destruct (notFound entry); simpl; auto.
  - destruct (frames_resolveUncached id TiDB now) as (a & st & q & lg & H).
    rewrite !H. unfold effect. simpl.
    split; [reflexivity|]. split; intros ->; reflexivity.
Qed.

(** X9: a sweep never changes what [Resolve] does. After
    [CleanExpiredCache], a call at the same clock reading finds the same
    valid entry (or none) under every key, and so returns the same record
    and error, sends the same statements and logs the same lines as it
    would have without the sweep. *)
Theorem CleanExpiredCache_invisible
    (range : gmap string cacheEntry -> list (string * cacheEntry))
    (TiDB : option DB) (now : Time) (id : string) (w : World) :
  (forall m, range m ≡ₚ map_to_list m) ->
  let swept := (CleanExpiredCache range now w).2 in
  (forall k, validEntry (resolver swept) now k = validEntry (resolver w) now k) /\
  (Resolve TiDB now id swept).1 = (Resolve TiDB now id w).1 /\
  issued (Resolve TiDB now id swept).2 = issued (Resolve TiDB now id w).2 /\
  missLogger (resolver (Resolve TiDB now id swept).2) =
    missLogger (resolver (Resolve TiDB now id w).2).
Proof.
  intros Hr swept. subst swept.
  split; [intros k; apply validEntry_swept; assumption|].
  destruct (Resolve_same_view TiDB now id (CleanExpiredCache range now w).2 w
              (validEntry_swept range now w id Hr)) as (H1 & H2 & H3).
  split; [exact H1|].
  rewrite CleanExpiredCache_world in * by assumption. simpl in *.
  split; [apply H2 | apply H3]; reflexivity.
Qed.

Lemma GetCacheStats_sizes
    (range : gmap string cacheEntry -> list (string * cacheEntry))
    (now : Time) (w : World) :
  (forall m, range m ≡ₚ map_to_list m) ->
  let nr := resolver w in
  (GetCacheStats range now w).1 =
    mkCacheStats
      (Z.of_nat (size (cache nr)))
      (Z.of_nat (size (filter (fun kv => isFound nr now kv = true) (cache nr))))
      (Z.of_nat (size (filter (fun kv => isNotFound nr now kv = true) (cache nr))))
      (Z.of_nat (size (filter (fun kv => isExpired nr now kv = true) (cache nr))))
      (cacheTTL nr) (notFoundTTL nr).
Proof.
  intros Hr nr. rewrite GetCacheStats_run. simpl. fold nr.
  rewrite !(size_filter_bool _ (cache nr) (range (cache nr)) (Hr _)).
  reflexivity.
Qed.

(** X10: statistics and sweep agree. At one clock reading,
    [CleanExpiredCache] returns exactly the [expired] count that
    [GetCacheStats] reported before it, and the statistics taken after it
    show [expired = 0], the same [found] and [not_found] as before, and
    [total = found + not_found]. *)
Theorem GetCacheStats_around_sweep
    (r1 r2 r3 : gmap string cacheEntry -> list (string * cacheEntry))
    (now : Time) (w : World) :
  (forall m, r1 m ≡ₚ map_to_list m) ->
  (forall m, r2 m ≡ₚ map_to_list m) ->
  (forall m, r3 m ≡ₚ map_to_list m) ->
  let before := (GetCacheStats r1 now w).1 in
  let sweep := CleanExpiredCache r2 now w in
  let after := (GetCacheStats r3 now sweep.2).1 in
  sweep.1 = st_expired before /\
  st_expired after = 0 /\
  st_found after = st_found before /\
  st_not_found after = st_not_found before /\
  st_total after = st_total before - sweep.1 /\
  st_total after = st_found after + st_not_found after.
Proof.
  intros H1 H2 H3 before sweep after. subst before sweep after.
  set (nr := resolver w).
  rewrite !GetCacheStats_sizes by assumption.
  rewrite CleanExpiredCache_count by assumption.
  rewrite CleanExpiredCache_world by assumption. simpl. fold nr.
  set (nr' := mkNameResolver
                (filter (fun kv => isEntryValid nr now kv.2 = true) (cache nr))
                (missLogger nr) (cacheTTL nr) (notFoundTTL nr)).
  change (isFound nr') with (isFound nr).
  change (isNotFound nr') with (isNotFound nr).
  change (isExpired nr') with (isExpired nr).
  rewrite !map_filter_filter.
  assert (Hf : filter (fun '(i, x) => isFound nr now (i, x) = true /\
                                isEntryValid nr now (i, x).2 = true) (cache nr) =
               filter (fun kv => isFound nr now kv = true) (cache nr)).
  { apply map_filter_ext. intros k e _. unfold isFound. simpl.
    destruct (isEntryValid nr now e); simpl; intuition congruence. }
  assert (Hn : filter (fun '(i, x) => isNotFound nr now (i, x) = true /\
                                isEntryValid nr now (i, x).2 = true) (cache nr) =
               filter (fun kv => isNotFound nr now kv = true) (cache nr)).
  { apply map_filter_ext. intros k e _. unfold isNotFound. simpl.
    destruct (isEntryValid nr now e); simpl; intuition congruence. }
  assert (He : filter (fun '(i, x) => isExpired nr now (i, x) = true /\
                                isEntryValid nr now (i, x).2 = true) (cache nr) =
               ∅).
  { apply map_empty_filter_2. intros k e _. unfold isExpired. simpl.
    destruct (isEntryValid nr now e); simpl; intuition congruence. }
  rewrite Hf, Hn, He, map_size_empty.
  (* the three classes partition the cache *)
  assert (Hsplit :
    Z.of_nat (size (cache nr)) =
    Z.of_nat (size (filter (fun kv => isFound nr now kv = true) (cache nr)))
    + Z.of_nat (size (filter (fun kv => isNotFound nr now kv = true) (cache nr)))
    + Z.of_nat (size (filter (fun kv => isExpired nr now kv = true) (cache nr)))).
  { rewrite !(size_filter_bool _ (cache nr) (r1 (cache nr)) (H1 _)).
    rewrite <- (length_map_to_list (cache nr)), <- (H1 (cache nr)).
    rewrite (length_three_way nr now (r1 (cache nr))) at 1. lia. }
  assert (Hv :
    Z.of_nat (size (cache nr)) =
    Z.of_nat (size (filter (fun kv => isEntryValid nr now kv.2 = true) (cache nr)))
    + Z.of_nat (size (filter (fun kv => isExpired nr now kv = true) (cache nr)))).
  { rewrite (size_filter_bool (fun kv => isEntryValid nr now kv.2)
               (cache nr) (r1 (cache nr)) (H1 _)).
    rewrite (size_filter_bool (isExpired nr now)
               (cache nr) (r1 (cache nr)) (H1 _)).
    rewrite <- (length_map_to_list (cache nr)), <- (H1 (cache nr)).
    rewrite (length_filter_split (fun kv => isEntryValid nr now kv.2)
               (r1 (cache nr))) at 1.
    unfold isExpired. lia. }
  simpl. repeat split; lia.
Qed.

(** X11: [ClearCache] forgets every entry and nothing else. Afterwards the
    cache is empty while the logger, the TTLs and the query trace are as
    before; the statistics are all zero and a sweep removes nothing; and
    [Resolve] returns for every identifier the record and error a newly
    built resolver returns, however fresh the entry it held before. *)
Theorem ClearCache_forgets
    (range : gmap string cacheEntry -> list (string * cacheEntry))
    (TiDB : option DB) (now : Time) (id : string) (w : World) :
  (forall m, range m ≡ₚ map_to_list m) ->
  let nr := resolver w in
  let cleared := (ClearCache w).2 in
  cleared = mkWorld (mkNameResolver ∅ (missLogger nr) (cacheTTL nr)
                                    (notFoundTTL nr)) (issued w) /\
  (GetCacheStats range now cleared).1 =
    mkCacheStats 0 0 0 0 (cacheTTL nr) (notFoundTTL nr) /\
  CleanExpiredCache range now cleared = (0, cleared) /\
  (Resolve TiDB now id cleared).1 = (Resolve TiDB now id fresh_world).1.
Proof.
  intros Hr nr cleared. subst cleared nr.
  assert (Hnil : range ∅ = []).
  { apply Permutation_nil_r. rewrite (Hr ∅), map_to_list_empty. reflexivity. }
  split; [reflexivity|]. split; [|split].
  - rewrite GetCacheStats_run. simpl. rewrite Hnil. reflexivity.
  - rewrite CleanExpiredCache_run. simpl. rewrite Hnil. reflexivity.
  - apply Resolve_same_view. reflexivity.
Qed.

(** ** What holds in every reachable world *)

Lemma resolveFromBackend_queries_arg (db : DB) (now : Time) (id : string)
    (w : World) :
  exists qs,
    issued (resolveFromBackend db now id w).2 = (issued w ++ qs)%list /\
    Forall (fun q => queryArg q = id) qs.
Proof.
  destruct w as [[c lg t1 t2] qs0]. run_effects.
  repeat (case_match; simpl in *; simplify_eq).
  all: eexists; split; [rewrite <- ?app_assoc; reflexivity
                       | repeat constructor].
Qed.

Lemma Resolve_queries_arg (TiDB : option DB) (now : Time) (id : string)
    (w : World) :
  exists qs,
    issued (Resolve TiDB now id w).2 = (issued w ++ qs)%list /\
    Forall (fun q => isNumeric (queryArg q) = true) qs.
Proof.
  destruct (Resolve_cases TiDB now id w)
    as [[_ ->] | [(_ & _ & ->) | [(_ & entry & _ & ->) | (Hnum & _ & ->)]]].
  1-3: exists []; simpl; rewrite app_nil_r; split; [reflexivity|constructor].
  destruct TiDB as [db|]; simpl.
  - destruct (resolveFromBackend_queries_arg db now id w) as (qs & Hq & Hall).
    exists qs. split; [exact Hq|].
    eapply Forall_impl; [exact Hall|]. intros q ->. exact Hnum.
  - exists []. destruct w as [[c [l|] t1 t2] qs0]; simpl;
      rewrite app_nil_r; split; (reflexivity || constructor).
Qed.

Lemma Resolve_stores_classified (TiDB : option DB) (now : Time) (id : string)
    (w : World) :
  let out := Resolve TiDB now id w in
  cache (resolver out.2) = cache (resolver w) \/
  exists e, entry_classified id e /\
            cache (resolver out.2) = <[id := e]> (cache (resolver w)).
Proof.
  simpl.
  destruct (Resolve_cases TiDB now id w)
    as [[_ ->] | [(_ & _ & ->) | [(_ & entry & _ & ->) | (Hnum & _ & ->)]]];
    auto.
  destruct TiDB as [db|]; simpl.
  - right. destruct (List.find (yields db id) chain) as [s|] eqn:Hs.
    + destruct (Resolve_chain_hit db now id w s Hs) as (_ & Hk & _ & Hc & _).
      eexists. split; [|exact Hc]. split; [exact Hnum|]. intros _. simpl.
      rewrite Hk. destruct s; auto.
    + destruct (Resolve_chain_miss db now id w Hs) as (_ & Hc & _).
      eexists. split; [|exact Hc]. split; [exact Hnum|]. discriminate.
  - left. destruct w as [[c [l|] t1 t2] qs]; reflexivity.
Qed.

Lemma configured_effect (id : string) st q lg (w : World) :
  configured (resolver w) -> configured (resolver (effect id st q lg w)).
Proof.
  intros (H1 & H2 & [l Hl]). unfold effect, configured. simpl.
  rewrite Hl. simpl. eauto.
Qed.

(** X12: in every reachable world the cache holds numeric identifiers
    only (the non-numeric ones are answered without being stored), every
    positive entry is a [cluster] or a [tenant] record, every statement in
    the query trace was sent with a numeric argument, and the resolver is
    configured as [GetNameResolver] built it: TTLs of 24h and 1h and a
    logger in place. *)
Theorem reachable_invariants (w : World) :
  reachable w ->
  (forall k e, cache (resolver w) !! k = Some e ->
     isNumeric k = true /\
     (notFound e = false ->
      Type_ (info e) = "cluster" \/ Type_ (info e) = "tenant")) /\
  Forall (fun q => isNumeric (queryArg q) = true) (issued w) /\
  cacheTTL (resolver w) = 24 * Hour /\ notFoundTTL (resolver w) = 1 * Hour /\
  is_Some (missLogger (resolver w)).
Proof.
  intros Hreach.
  change ((forall k e, cache (resolver w) !! k = Some e ->
             entry_classified k e) /\
          Forall (fun q => isNumeric (queryArg q) = true) (issued w) /\
          configured (resolver w)).
  induction Hreach as [|TiDB now id w _ (IHc & IHq & IHn)|w _ (IHc & IHq & IHn)
                       |range now w Hr _ (IHc & IHq & IHn)
                       |range now w Hr _ (IHc & IHq & IHn)].
  - split; [|split].
    + intros k e Hk. simpl in Hk. rewrite lookup_empty in Hk. discriminate.
    + constructor.
    + unfold configured. simpl. eauto.
  - split; [|split].
    + intros k e.
      destruct (Resolve_stores_classified TiDB now id w)
        as [-> | (e' & He' & ->)]; [apply IHc|].
      destruct (decide (id = k)) as [<-|Hne].
      * rewrite lookup_insert_eq. intros [= <-]. assumption.
      * rewrite lookup_insert_ne by assumption. apply IHc.
    + destruct (Resolve_queries_arg TiDB now id w) as (qs & -> & Hall).
      apply Forall_app. split; assumption.
    + destruct (Resolve_effect TiDB now id w) as (st & q & lg & ->).
      apply configured_effect. assumption.
  - split; [|split]; [|exact IHq|exact IHn].
    intros k e Hk. simpl in Hk. rewrite lookup_empty in Hk. discriminate.
  - rewrite CleanExpiredCache_run. simpl.
    split; [|split]; [|exact IHq|exact IHn].
    intros k e Hk. apply cleanEntry_fold_lookup in Hk as [Hk _].
    apply (IHc k e Hk).
  - rewrite GetCacheStats_run. simpl. auto.
Qed.

Lemma reachable_entries_ok (w : World) : reachable w -> cache_ok w.
Proof.
  intros Hreach.
  induction Hreach as [|TiDB now id w _ IH|w _ IH|range now w _ _ IH
                       |range now w _ _ IH].
  - intros k e Hk. simpl in Hk. rewrite lookup_empty in Hk. discriminate.
  - apply cache_ok_Resolve. assumption.
  - intros k e Hk. simpl in Hk. rewrite lookup_empty in Hk. discriminate.
  - apply cache_ok_CleanExpiredCache. assumption.
  - rewrite GetCacheStats_run. assumption.
Qed.

(** X13: in a reachable world [Resolve] always echoes its argument: the
    [ID] of the record it returns is the identifier it was called with,
    whether the record comes from the input check, from the cache or from
    the backend, and whether or not an error comes with it. *)
Theorem Resolve_echoes_id (TiDB : option DB) (now : Time) (id : string)
    (w : World) :
  reachable w -> ID (Resolve TiDB now id w).1.1 = id.
Proof.
  intros Hreach. pose proof (reachable_entries_ok w Hreach) as Hok.
  destruct (Resolve_cases TiDB now id w)
    as [[-> ->] | [(_ & _ & ->) | [(_ & entry & Hv & ->) | (_ & _ & ->)]]];
    try reflexivity.
  - apply validEntry_Some in Hv as [Hc _].
    destruct (Hok id entry Hc) as [Hid _].
    destruct (notFound entry); simpl; [reflexivity | exact Hid].
  - destruct (resolveUncached_outcome TiDB now id w)
      as [(_ & Hid & _) | [(Hr & _) | (Hr & _)]]; simpl in *.
    + exact Hid.
    + rewrite Hr. reflexivity.
    + rewrite Hr. reflexivity.
Qed.

(** ** The records of the later steps *)

(** X14: what the steps after the first return. With no cluster row for
    the id, a tenant row is a result whatever its name (an empty name is
    returned and cached as it is, and the name-only queries are not sent);
    the tenant-name-only and cluster-name-only steps return the name they
    scanned. The record of each of these steps has empty tenant id and
    tenant name, and is cached as a positive entry. *)
Theorem Resolve_later_steps (db : DB) (now : Time) (id : string) (w : World) :
  isNumeric id = true ->
  validEntry (resolver w) now id = None ->
  yields db id ClusterByID = false ->
  let out := Resolve (Some db) now id w in
  let stored := cache (resolver out.2) !! id in
  (forall ti, select_tenant db id = Scanned ti ->
     out.1 = (mkNameInfo "tenant" id (ti_TenantName ti) "" "", None) /\
     stored = Some (mkCacheEntry out.1.1 false now) /\
     issued out.2 = (issued w ++ [QCluster id; QTenant id])%list) /\
  (forall name, yields db id TenantByID = false ->
     select_tenant_name db id = Scanned name -> name <> "" ->
     out.1 = (mkNameInfo "tenant" id name "" "", None) /\
     stored = Some (mkCacheEntry out.1.1 false now) /\
     issued out.2 =
       (issued w ++ [QCluster id; QTenant id; QTenantName id])%list) /\
  (forall name, yields db id TenantByID = false ->
     yields db id TenantNameOnly = false ->
     select_cluster_name db id = Scanned name -> name <> "" ->
     out.1 = (mkNameInfo "cluster" id name "" "", None) /\
     stored = Some (mkCacheEntry out.1.1 false now) /\
     issued out.2 =
       (issued w ++ [QCluster id; QTenant id; QTenantName id;
                     QClusterName id])%list).
Proof.
  intros Hnum Hmiss Hy1 out stored. subst stored out.
  rewrite (Resolve_miss_eq _ _ _ _ Hnum Hmiss). simpl.
  destruct w as [[c lg t1 t2] qs]. unfold yields in *.
  split; [|split].
  - intros ti Hti. run_effects. rewrite Hti.
    destruct (select_cluster db id); try discriminate; simpl;
      rewrite lookup_insert_eq, <- ?app_assoc; auto.
  - intros name Hy2 Hn Hne. apply String.eqb_neq in Hne.
    run_effects. rewrite Hn, Hne.
    destruct (select_cluster db id); try discriminate;
      destruct (select_tenant db id); try discriminate; simpl;
      rewrite lookup_insert_eq, <- ?app_assoc; auto.
  - intros name Hy2 Hy3 Hn Hne. apply String.eqb_neq in Hne.
    run_effects. rewrite Hn, Hne.
    destruct (select_cluster db id); try discriminate;
      destruct (select_tenant db id); try discriminate;
      destruct (select_tenant_name db id) as [|?|n3]; try discriminate;
      simpl; rewrite ?Hy3; simpl;
      rewrite lookup_insert_eq, <- ?app_assoc; auto.
Qed.

(** ** Premium names that fail to scan *)

Lemma scanNames_with_failure (rs : list NameScan) (acc : list string)
    (e : error) :
  In (NameFailed e) rs -> exists e', scanNames rs acc = ([], Some e').
Proof.
  revert acc. induction rs as [|[n|e0] rs IH]; intros acc Hin.
  - destruct Hin.
  - destruct Hin as [Hin|Hin]; [discriminate|]. simpl. apply IH. assumption.
  - simpl. eauto.
Qed.

(** X15: the premium names are all or nothing. If the scan of any row of
    the premium cluster details fails, the names of the rows that did scan
    are dropped with it: [Resolve] returns the cluster record with its
    stored (empty or id-equal) name, no error, and caches it as a positive
    entry. *)
Theorem Resolve_premium_scan_failure (db : DB) (now : Time) (id : string)
    (w : World) (ci : ClusterInfo) (rs : list NameScan) (e : error) :
  isNumeric id = true ->
  validEntry (resolver w) now id = None ->
  select_cluster db id = Scanned ci ->
  ci_DeployType ci = "nextgen-host" ->
  ci_ClusterName ci = "" \/ ci_ClusterName ci = id ->
  select_premium_names db id = Rows rs ->
  In (NameFailed e) rs ->
  let out := Resolve (Some db) now id w in
  out.1 = (mkNameInfo "cluster" id (ci_ClusterName ci)
                      (ci_TenantID ci) (ci_TenantName ci), None) /\
  cache (resolver out.2) !! id = Some (mkCacheEntry out.1.1 false now) /\
  issued out.2 = (issued w ++ [QCluster id; QPremiumNames id])%list.
Proof.
  intros Hnum Hmiss Hc Hd Hn Hp Hin out. subst out.
  rewrite (Resolve_miss_eq _ _ _ _ Hnum Hmiss). simpl.
  assert (Hrun : resolveFromBackend db now id w =
                 resolveCluster db now id ci
                   (mkWorld (resolver w) (issued w ++ [QCluster id])%list)).
  { unfold resolveFromBackend, getCluster, bind, sendQuery, ret.
    rewrite Hc. reflexivity. }
  rewrite Hrun, (resolveCluster_nextgen db now id _ ci Hd Hn).
  assert (Hf : fetchedNames db id = []).
  { unfold fetchedNames. run_effects. rewrite Hp.
    destruct (scanNames_with_failure rs [] e Hin) as (e' & ->).
    reflexivity. }
  rewrite Hf. simpl. rewrite lookup_insert_eq, <- app_assoc. auto.
Qed.

(** ** Digits *)

Lemma notDigit_code (c : ascii) : notDigit c = false <-> digitCode c.
Proof.
  unfold digitCode.
  destruct c as [[] [] [] [] [] [] [] []]; vm_compute;
    split; try discriminate; try (intros _; split; lia);
    intros [H1 H2]; try reflexivity; lia.
Qed.

(** X16: [isNumeric] accepts exactly the non-empty strings all of whose
    bytes are decimal digits (codes 48 to 57): a sign, a space, a decimal
    point or any byte of a multi-byte character makes it false. *)
Theorem isNumeric_digit_codes (s : string) :
  isNumeric s = true <->
  s <> "" /\ Forall digitCode (list_ascii_of_string s).
Proof.
  rewrite isNumeric_spec. split; intros [Hne Hall]; (split; [exact Hne|]);
    eapply Forall_impl; try exact Hall; intros c Hc; apply notDigit_code;
    exact Hc.
Qed.

(** ** Statistics over time *)

(** X17: while nothing is stored, the statistics only age. Between two
    clock readings [t <= t'] taken on the same world, [total] stays the
    same, [expired] does not decrease, and [found] and [not_found] do not
    increase. *)
Theorem GetCacheStats_over_time
    (r r' : gmap string cacheEntry -> list (string * cacheEntry))
    (t t' : Time) (w : World) :
  (forall m, r m ≡ₚ map_to_list m) ->
  (forall m, r' m ≡ₚ map_to_list m) ->
  t <= t' ->
  let early := (GetCacheStats r t w).1 in
  let late := (GetCacheStats r' t' w).1 in
  st_total late = st_total early /\
  st_expired early <= st_expired late /\
  st_found late <= st_found early /\
  st_not_found late <= st_not_found early.
Proof.
  intros Hr Hr' Hle early late. subst early late.
  rewrite !GetCacheStats_sizes by assumption. simpl.
  set (nr := resolver w).
  split; [reflexivity|].
  split; [|split]; apply inj_le, map_subseteq_size, map_filter_subseteq_ext;
    intros k e _; unfold isExpired, isFound, isNotFound; simpl.
  - destruct (isEntryValid nr t e) eqn:E; [discriminate|].
    rewrite (isEntryValid_later nr t t' e Hle E). reflexivity.
  - destruct (isEntryValid nr t' e) eqn:E; [|discriminate].
    rewrite (isEntryValid_earlier nr t t' e Hle E). auto.
  - destruct (isEntryValid nr t' e) eqn:E; [|discriminate].
    rewrite (isEntryValid_earlier nr t t' e Hle E). auto.
Qed.

(** ** The first revision *)

Ltac run_v1 :=
  unfold V1.Resolve, V1.resolveFromBackend, V1.resolveTenant,
    V1.resolveTenantName, V1.resolveClusterName, V1.clusterNameOf,
    V1.getCluster, V1.getTenant, V1.getTenantName, V1.getClusterName,
    V1.getPremiumClusterNamesByParentID, V1.stored, V1.sent; simpl.

Lemma V1_agrees_backend (db : DB) (now : Time) (id : string)
    (w1 : V1.World) (w : World) :
  let old := V1.resolveFromBackend db id w1 in
  let new := resolveFromBackend db now id w in
  old.1 = new.1 /\
  (exists qs, V1.issued old.2 = (V1.issued w1 ++ qs)%list /\
              issued new.2 = (issued w ++ qs)%list) /\
  (old.1.2 = None ->
   V1.cache (V1.resolver old.2) =
     <[id := old.1.1]> (V1.cache (V1.resolver w1))) /\
  (old.1.2 <> None -> V1.cache (V1.resolver old.2) = V1.cache (V1.resolver w1)).
Proof.
  destruct w as [[c lg t1 t2] qs0]. destruct w1 as [[c1] qs1].
  run_v1. run_effects.
  repeat (case_match; simpl in *; simplify_eq).
  all: split; [reflexivity|].
  all: split; [eexists; split; rewrite <- ?app_assoc; reflexivity|].
  all: split; intros Hx; simpl in *; try reflexivity; try discriminate;
    congruence.
Qed.

(** X18: the two revisions agree where both go to the backend. For a
    numeric identifier that the first revision has not cached and for which
    the later one holds no valid entry, both return the same record and
    the same error and send the same statements in the same order; the
    first revision stores the record exactly when there is no error, and
    stores nothing on a miss. *)
Theorem revisions_agree_on_uncached (TiDB : option DB) (now : Time)
    (id : string) (w1 : V1.World) (w : World) :
  isNumeric id = true ->
  V1.cache (V1.resolver w1) !! id = None ->
  validEntry (resolver w) now id = None ->
  let old := V1.Resolve TiDB id w1 in
  let new := Resolve TiDB now id w in
  old.1 = new.1 /\
  (exists qs, V1.issued old.2 = (V1.issued w1 ++ qs)%list /\
              issued new.2 = (issued w ++ qs)%list) /\
  (old.1.2 = None ->
   V1.cache (V1.resolver old.2) =
     <[id := old.1.1]> (V1.cache (V1.resolver w1))) /\
  (old.1.2 <> None -> V1.cache (V1.resolver old.2) = V1.cache (V1.resolver w1)).
Proof.
  intros Hnum Hc1 Hmiss old new. subst old new.
  rewrite (Resolve_miss_eq _ _ _ _ Hnum Hmiss).
  unfold V1.Resolve. rewrite (isNumeric_nonempty _ Hnum), Hnum, Hc1. simpl.
  destruct TiDB as [db|]; simpl.
  - apply V1_agrees_backend.
  - destruct w as [[c [l|] t1 t2] qs0]; simpl;
      (split; [reflexivity|]);
      (split; [exists []; rewrite !app_nil_r; split; reflexivity|]);
      split; intros Hx; simpl in *; congruence.
Qed.

(** X19: in the first revision a cached record never expires. Once a
    call has returned a record without error for a numeric identifier,
    every later call returns that record, with no error, no statement sent
    and the world unchanged, whatever the backend holds by then. *)
Theorem V1_cached_forever (TiDB : option DB) (later : nat -> option DB)
    (id : string) (w : V1.World) (n : nat) :
  isNumeric id = true ->
  (V1.Resolve TiDB id w).1.2 = None ->
  let first := V1.Resolve TiDB id w in
  V1_ResolveEach later id n first.2 = (repeat first.1 n, first.2).
Proof.
  intros Hnum Herr first.
  assert (Hc : V1.cache (V1.resolver first.2) !! id = Some first.1.1).
  { subst first. revert Herr. unfold V1.Resolve.
    rewrite (isNumeric_nonempty _ Hnum), Hnum. simpl.
    destruct (V1.cache (V1.resolver w) !! id) as [info|] eqn:Hid.
    - intros _. exact Hid.
    - destruct TiDB as [db|]; simpl; [|discriminate].
      intros Herr.
      destruct (V1_agrees_backend db 0 id w blank) as (_ & _ & Hs & _).
      simpl in Hs. rewrite (Hs Herr). apply lookup_insert_eq. }
  assert (H1 : first.1 = (first.1.1, None)).
  { rewrite (surjective_pairing first.1) at 1. f_equal. exact Herr. }
  clearbody first. induction n as [|n IH]; [reflexivity|].
  simpl. unfold V1.Resolve at 1.
  rewrite (isNumeric_nonempty _ Hnum), Hnum, Hc. simpl.
  rewrite IH, <- H1. reflexivity.
Qed.

(** X20: the first revision does not remember a miss. When no step
    yields a result it fails with [NotFound], returns [{id, name: id}] and
    leaves the cache as it is, so the next call sends the four step queries
    again; the later revision answers that next call from its negative
    entry without a query (X2). *)
Theorem V1_miss_not_cached (db : DB) (id : string) (w : V1.World) :
  isNumeric id = true ->
  V1.cache (V1.resolver w) !! id = None ->
  (forall s, yields db id s = false) ->
  let chainQueries :=
    [QCluster id; QTenant id; QTenantName id; QClusterName id] in
  let first := V1.Resolve (Some db) id w in
  let second := V1.Resolve (Some db) id first.2 in
  first.1 = (NameInfo_id id, Some (errNotFound id)) /\
  V1.cache (V1.resolver first.2) = V1.cache (V1.resolver w) /\
  V1.issued first.2 = (V1.issued w ++ chainQueries)%list /\
  second.1 = first.1 /\
  V1.issued second.2 = (V1.issued w ++ chainQueries ++ chainQueries)%list.
Proof.
  intros Hnum Hc Hy chainQueries first second.
  assert (Hrun : forall w', V1.cache (V1.resolver w') !! id = None ->
            V1.Resolve (Some db) id w' =
              ((NameInfo_id id, Some (errNotFound id)),
               V1.mkWorld (V1.resolver w') (V1.issued w' ++ chainQueries)%list)).
  { intros [[c'] qs'] Hc'. simpl in Hc'.
    pose proof (Hy ClusterByID) as H1. pose proof (Hy TenantByID) as H2.
    pose proof (Hy TenantNameOnly) as H3.
    pose proof (Hy ClusterNameOnly) as H4.
    unfold yields in *. unfold V1.Resolve.
    rewrite (isNumeric_nonempty _ Hnum), Hnum. simpl. rewrite Hc'.
    run_v1.
    repeat (case_match; simpl in *; simplify_eq);
      rewrite <- ?app_assoc; try reflexivity; congruence. }
  subst second first. rewrite (Hrun w Hc). simpl.
  rewrite (Hrun (V1.mkWorld (V1.resolver w)
                           (V1.issued w ++ chainQueries)%list) Hc).
  simpl. rewrite <- app_assoc. auto.
Qed.

(** ** Instances *)

Ltac by_compute :=
  vm_compute; first [ reflexivity | discriminate | intros ?; discriminate ].

Lemma Resolve_again_within_cacheTTL_witness :
  let first := Resolve (Some db_tenant_only) 5 "7" fresh_world in
  first.1.2 = None /\
  ResolveEach None "7" [6; 9] first.2 =
    (repeat (first.1.1, None) 2, first.2).
Proof.
  apply (Resolve_again_within_cacheTTL db_tenant_only None 5 "7" fresh_world
           TenantByID [6; 9] eq_refl eq_refl eq_refl
           (proj1 GetNameResolver_ttl_ok) (proj2 GetNameResolver_ttl_ok)).
  repeat constructor; by_compute.
Defined.

Lemma Resolve_again_within_notFoundTTL_witness :
  let first := Resolve (Some db_empty) 5 "7" fresh_world in
  ResolveEach (Some db_tenant_only) "7" [6; 9] first.2 =
    (repeat (NameInfo_id "7", Some (errNotFoundCached "7")) 2, first.2).
Proof.
  apply (Resolve_again_within_notFoundTTL db_empty (Some db_tenant_only) 5 "7"
           fresh_world [6; 9] eq_refl eq_refl eq_refl
           (proj1 GetNameResolver_ttl_ok) (proj2 GetNameResolver_ttl_ok)).
  repeat constructor; by_compute.
Defined.

Lemma negative_entry_replaced_after_notFoundTTL_witness :
  let first := Resolve (Some db_empty) 5 "7" fresh_world in
  let second := Resolve (Some db_tenant_only) (5 + Hour) "7" first.2 in
  cache (resolver first.2) !! "7" =
    Some (mkCacheEntry (NameInfo_id "7") true 5) /\
  second.1.2 = None /\ Type_ second.1.1 = stepKind TenantByID /\
  cache (resolver second.2) !! "7" =
    Some (mkCacheEntry second.1.1 false (5 + Hour)) /\
  size (cache (resolver second.2)) = size (cache (resolver first.2)) /\
  (exists qs, issued second.2 = (issued first.2 ++ QCluster "7" :: qs)%list).
Proof.
  apply (negative_entry_replaced_after_notFoundTTL db_empty db_tenant_only
           5 (5 + Hour) "7" fresh_world TenantByID eq_refl eq_refl eq_refl
           (proj1 GetNameResolver_ttl_ok) (proj2 GetNameResolver_ttl_ok)).
  - by_compute.
  - reflexivity.
Defined.

Lemma Resolve_named_cluster_witness :
  let result := mkNameInfo "cluster" "7" "prod-eu" "t1" "Acme" in
  Resolve (Some db_named) 5 "7" fresh_world =
    ((result, None),
     mkWorld (mkNameResolver (<["7" := mkCacheEntry result false 5]> ∅)
                             (Some []) (24 * Hour) (1 * Hour))
             ([] ++ [QCluster "7"])%list).
Proof.
  apply (Resolve_named_cluster db_named 5 "7" fresh_world ci_named);
    try reflexivity; discriminate.
Defined.

Lemma Resolve_error_record_witness :
  (Resolve None 5 "7" fresh_world).1.1 = NameInfo_id "7" /\
  errBackendUnavailable ∈ resolveErrors "7".
Proof.
  apply (Resolve_error_record None 5 "7" fresh_world errBackendUnavailable).
  reflexivity.
Defined.

Lemma Resolve_miss_log_witness :
  let out := Resolve (Some db_empty) 5 "7" fresh_world in
  missLogger (resolver out.2) = Some ([] ++ loggedFor "7" out.1.2)%list.
Proof.
  apply (Resolve_miss_log (Some db_empty) 5 "7" fresh_world []).
  reflexivity.
Defined.

Lemma CleanExpiredCache_twice_witness :
  let a := CleanExpiredCache map_to_list Hour clean_world in
  let b := CleanExpiredCache map_to_list (25 * Hour) a.2 in
  let direct := CleanExpiredCache map_to_list (25 * Hour) clean_world in
  b.2 = direct.2 /\ a.1 + b.1 = direct.1 /\
  (25 * Hour = Hour -> b.1 = 0 /\ b.2 = a.2).
Proof.
  apply (CleanExpiredCache_twice map_to_list map_to_list Hour (25 * Hour)
           clean_world
           (fun m => Permutation_refl (map_to_list m))
           (fun m => Permutation_refl (map_to_list m))).
  by_compute.
Defined.

Lemma CleanExpiredCache_invisible_witness :
  let swept := (CleanExpiredCache map_to_list (2 * Hour) clean_world).2 in
  (forall k, validEntry (resolver swept) (2 * Hour) k =
             validEntry (resolver clean_world) (2 * Hour) k) /\
  (Resolve (Some db_empty) (2 * Hour) "7" swept).1 =
    (Resolve (Some db_empty) (2 * Hour) "7" clean_world).1 /\
  issued (Resolve (Some db_empty) (2 * Hour) "7" swept).2 =
    issued (Resolve (Some db_empty) (2 * Hour) "7" clean_world).2 /\
  missLogger (resolver (Resolve (Some db_empty) (2 * Hour) "7" swept).2) =
    missLogger (resolver (Resolve (Some db_empty) (2 * Hour) "7" clean_world).2).
Proof.
  exact (CleanExpiredCache_invisible map_to_list (Some db_empty) (2 * Hour)
           "7" clean_world (fun m => Permutation_refl (map_to_list m))).
Defined.

Lemma GetCacheStats_around_sweep_witness :
  let before := (GetCacheStats map_to_list (2 * Hour) clean_world).1 in
  let sweep := CleanExpiredCache map_to_list (2 * Hour) clean_world in
  let after := (GetCacheStats map_to_list (2 * Hour) sweep.2).1 in
  sweep.1 = st_expired before /\
  st_expired after = 0 /\
  st_found after = st_found before /\
  st_not_found after = st_not_found before /\
  st_total after = st_total before - sweep.1 /\
  st_total after = st_found after + st_not_found after.
Proof.
  exact (GetCacheStats_around_sweep map_to_list map_to_list map_to_list
           (2 * Hour) clean_world
           (fun m => Permutation_refl (map_to_list m))
           (fun m => Permutation_refl (map_to_list m))
           (fun m => Permutation_refl (map_to_list m))).
Defined.

Lemma ClearCache_forgets_witness :
  let nr := resolver hit_world in
  let cleared := (ClearCache hit_world).2 in
  cleared = mkWorld (mkNameResolver ∅ (missLogger nr) (cacheTTL nr)
                                    (notFoundTTL nr)) (issued hit_world) /\
  (GetCacheStats map_to_list 5 cleared).1 =
    mkCacheStats 0 0 0 0 (cacheTTL nr) (notFoundTTL nr) /\
  CleanExpiredCache map_to_list 5 cleared = (0, cleared) /\
  (Resolve None 5 "42" cleared).1 = (Resolve None 5 "42" fresh_world).1.
Proof.
  exact (ClearCache_forgets map_to_list None 5 "42" hit_world
           (fun m => Permutation_refl (map_to_list m))).
Defined.

Lemma reachable_invariants_witness :
  let w := (Resolve (Some db_tenant_only) 5 "7" fresh_world).2 in
  (forall k e, cache (resolver w) !! k = Some e ->
     isNumeric k = true /\
     (notFound e = false ->
      Type_ (info e) = "cluster" \/ Type_ (info e) = "tenant")) /\
  Forall (fun q => isNumeric (queryArg q) = true) (issued w) /\
  cacheTTL (resolver w) = 24 * Hour /\ notFoundTTL (resolver w) = 1 * Hour /\
  is_Some (missLogger (resolver w)).
Proof.
  apply (reachable_invariants
           (Resolve (Some db_tenant_only) 5 "7" fresh_world).2).
  apply reach_Resolve, reach_init.
Defined.

Lemma Resolve_echoes_id_witness :
  ID (Resolve (Some db_nextgen) 9 "7"
        (Resolve (Some db_empty) 5 "7" fresh_world).2).1.1 = "7".
Proof.
  apply (Resolve_echoes_id (Some db_nextgen) 9 "7"
           (Resolve (Some db_empty) 5 "7" fresh_world).2).
  apply reach_Resolve, reach_init.
Defined.

Lemma Resolve_later_steps_witness :
  let out := Resolve (Some db_cluster_name_only) 5 "7" fresh_world in
  out.1 = (mkNameInfo "cluster" "7" "prod-eu" "" "", None) /\
  cache (resolver out.2) !! "7" = Some (mkCacheEntry out.1.1 false 5) /\
  issued out.2 =
    ([] ++ [QCluster "7"; QTenant "7"; QTenantName "7"; QClusterName "7"])%list.
Proof.
  pose proof (Resolve_later_steps db_cluster_name_only 5 "7" fresh_world
                eq_refl eq_refl eq_refl) as H0.
  cbv zeta in H0.
  assert (Hne : "prod-eu" <> "") by discriminate.
  exact (proj2 (proj2 H0) "prod-eu" eq_refl eq_refl eq_refl Hne).
Defined.

Lemma Resolve_premium_scan_failure_witness :
  let out := Resolve (Some db_premium_broken) 5 "7" fresh_world in
  out.1 = (mkNameInfo "cluster" "7" "" "t1" "Acme", None) /\
  cache (resolver out.2) !! "7" = Some (mkCacheEntry out.1.1 false 5) /\
  issued out.2 = ([] ++ [QCluster "7"; QPremiumNames "7"])%list.
Proof.
  apply (Resolve_premium_scan_failure db_premium_broken 5 "7" fresh_world
           ci_nextgen
           [NameOk "Beta"; NameFailed "converting NULL to string"]
           "converting NULL to string"); try reflexivity.
  - left. reflexivity.
  - right. left. reflexivity.
Defined.

Lemma GetCacheStats_over_time_witness :
  let early := (GetCacheStats map_to_list (Hour / 2) clean_world).1 in
  let late := (GetCacheStats map_to_list (2 * Hour) clean_world).1 in
  st_total late = st_total early /\
  st_expired early <= st_expired late /\
  st_found late <= st_found early /\
  st_not_found late <= st_not_found early.
Proof.
  apply (GetCacheStats_over_time map_to_list map_to_list (Hour / 2) (2 * Hour)
           clean_world
           (fun m => Permutation_refl (map_to_list m))
           (fun m => Permutation_refl (map_to_list m))).
  by_compute.
Defined.

Lemma revisions_agree_on_uncached_witness :
  let old := V1.Resolve (Some db_tenant_only) "7" v1_fresh_world in
  let new := Resolve (Some db_tenant_only) 5 "7" fresh_world in
  old.1 = new.1 /\
  (exists qs, V1.issued old.2 = (V1.issued v1_fresh_world ++ qs)%list /\
              issued new.2 = (issued fresh_world ++ qs)%list) /\
  (old.1.2 = None ->
   V1.cache (V1.resolver old.2) =
     <["7" := old.1.1]> (V1.cache (V1.resolver v1_fresh_world))) /\
  (old.1.2 <> None ->
   V1.cache (V1.resolver old.2) = V1.cache (V1.resolver v1_fresh_world)).
Proof.
  exact (revisions_agree_on_uncached (Some db_tenant_only) 5 "7"
           v1_fresh_world fresh_world eq_refl eq_refl eq_refl).
Defined.

Lemma V1_cached_forever_witness :
  let first := V1.Resolve (Some db_tenant_only) "7" v1_fresh_world in
  V1_ResolveEach (fun _ => None) "7" 3 first.2 = (repeat first.1 3, first.2).
Proof.
  exact (V1_cached_forever (Some db_tenant_only) (fun _ => None) "7"
           v1_fresh_world 3 eq_refl eq_refl).
Defined.

Lemma V1_miss_not_cached_witness :
  let chainQueries :=
    [QCluster "7"; QTenant "7"; QTenantName "7"; QClusterName "7"] in
  let first := V1.Resolve (Some db_empty) "7" v1_fresh_world in
  let second := V1.Resolve (Some db_empty) "7" first.2 in
  first.1 = (NameInfo_id "7", Some (errNotFound "7")) /\
  V1.cache (V1.resolver first.2) = V1.cache (V1.resolver v1_fresh_world) /\
  V1.issued first.2 = (V1.issued v1_fresh_world ++ chainQueries)%list /\
  second.1 = first.1 /\
  V1.issued second.2 =
    (V1.issued v1_fresh_world ++ chainQueries ++ chainQueries)%list.
Proof.
  apply (V1_miss_not_cached db_empty "7" v1_fresh_world eq_refl eq_refl).
  intros []; reflexivity.
Defined.
